(** * SoftICE MDA viewer: the CP866 decoder and the dump-line patcher

    A shallow embedding of [mda_viewer/cp866.py] and of
    [mda_viewer/__main__.py], with the properties of the decoder, of the
    two line fixers, of the screen patcher and of the main loop, which is
    run against a script of what the operating system answers.

    Python values are modelled as follows:
    - [str] is a list of Unicode code points ([Z]);
    - [bytes] is a list of [Byte.byte];
    - [int] is [Z], and a length or an offset in a text is a [nat];
    - a call that can raise returns a [result]: [Ok v] or [Raise e];
    - a function returning [str | None] returns [result (option str)].

    The file has four parts: the pieces of the Python runtime the program
    calls (UTF-8, the cp866 charmap, [splitlines], the three regular
    expressions), the two modules of the program, the notions the
    properties are stated with, and the properties with their proofs. *)

From Stdlib Require Import ZArith List Bool Lia Sorted.
From Stdlib Require Import Strings.Byte.
From Stdlib Require Strings.String Strings.Ascii.
Import ListNotations.
Import String.StringSyntax Ascii.AsciiSyntax.
Delimit Scope string_scope with string.

Open Scope Z_scope.

(** ** The Python runtime the program relies on *)

Module Py.

Inductive exn : Set :=
| ValueError
| IndexError
| UnicodeDecodeError
| UnicodeEncodeError.

Inductive result (A : Type) : Type :=
| Ok (a : A)
| Raise (e : exn).

Arguments Ok {A} a.
Arguments Raise {A} e.

Definition bind {A B : Type} (m : result A) (k : A -> result B) : result B :=
  match m with
  | Ok a => k a
  | Raise e => Raise e
  end.

Definition str : Type := list Z.
Definition bytes : Type := list byte.

Definition int_of_byte (b : byte) : Z := Z.of_N (Byte.to_N b).

(** One element of [bytes([...])]: a [ValueError] outside [range(256)]. *)
Definition byte_of_int (i : Z) : result byte :=
  if (i <? 0) || (255 <? i) then Raise ValueError
  else match Byte.of_N (Z.to_N i) with
       | Some b => Ok b
       | None => Raise ValueError
       end.

Fixpoint mapM {A B : Type} (f : A -> result B) (l : list A) : result (list B) :=
  match l with
  | [] => Ok []
  | a :: t =>
      bind (f a) (fun b => bind (mapM f t) (fun bs => Ok (b :: bs)))
  end.

(** [bytes(iterable_of_ints)] *)
Definition bytes_of_ints (l : list Z) : result bytes := mapM byte_of_int l.

(** [t[i]] on a tuple, for a non-negative index. *)
Definition tuple_getitem {A : Type} (t : list A) (i : Z) : result A :=
  if i <? 0 then Raise IndexError
  else match nth_error t (Z.to_nat i) with
       | Some a => Ok a
       | None => Raise IndexError
       end.

(** [range(n)] *)
Definition range (n : nat) : list Z := map Z.of_nat (seq 0 n).

(** *** UTF-8, strict *)

Definition mk_byte (z : Z) : byte :=
  match Byte.of_N (Z.to_N (z mod 256)) with
  | Some b => b
  | None => x00
  end.

(** The UTF-8 encoding of the one-character string [chr(c)] *)
Definition utf8_encode_char (c : Z) : result bytes :=
  if (c <? 0) || (0x10FFFF <? c) then Raise ValueError
  else if c <? 0x80 then Ok [mk_byte c]
  else if c <? 0x800 then
    Ok [mk_byte (Z.lor 0xC0 (Z.shiftr c 6));
        mk_byte (Z.lor 0x80 (Z.land c 0x3F))]
  else if c <? 0x10000 then
    if (0xD800 <=? c) && (c <=? 0xDFFF) then Raise UnicodeEncodeError
    else
      Ok [mk_byte (Z.lor 0xE0 (Z.shiftr c 12));
          mk_byte (Z.lor 0x80 (Z.land (Z.shiftr c 6) 0x3F));
          mk_byte (Z.lor 0x80 (Z.land c 0x3F))]
  else
    Ok [mk_byte (Z.lor 0xF0 (Z.shiftr c 18));
        mk_byte (Z.lor 0x80 (Z.land (Z.shiftr c 12) 0x3F));
        mk_byte (Z.lor 0x80 (Z.land (Z.shiftr c 6) 0x3F));
        mk_byte (Z.lor 0x80 (Z.land c 0x3F))].

(** [s.encode] to UTF-8 *)
Definition utf8_encode (s : str) : result bytes :=
  bind (mapM utf8_encode_char s) (fun chunks => Ok (List.concat chunks)).

Definition in_range (lo hi z : Z) : bool := (lo <=? z) && (z <=? hi).

Definition decoded (c : Z) (k : result str) : result str :=
  bind k (fun s => Ok (c :: s)).

(** [bs.decode] from UTF-8: shortest forms only, no surrogates, nothing
    above U+10FFFF; anything else is a [UnicodeDecodeError]. *)
Fixpoint utf8_decode (bs : bytes) : result str :=
  match bs with
  | [] => Ok []
  | b0 :: t0 =>
      let z0 := int_of_byte b0 in
      if z0 <? 0x80 then decoded z0 (utf8_decode t0)
      else if z0 <? 0xC2 then Raise UnicodeDecodeError
      else if z0 <? 0xE0 then
        match t0 with
        | b1 :: t1 =>
            let z1 := int_of_byte b1 in
            if in_range 0x80 0xBF z1 then
              decoded (Z.lor (Z.shiftl (Z.land z0 0x1F) 6) (Z.land z1 0x3F))
                      (utf8_decode t1)
            else Raise UnicodeDecodeError
        | [] => Raise UnicodeDecodeError
        end
      else if z0 <? 0xF0 then
        match t0 with
        | b1 :: b2 :: t2 =>
            let z1 := int_of_byte b1 in
            let z2 := int_of_byte b2 in
            let lo1 := if z0 =? 0xE0 then 0xA0 else 0x80 in
            let hi1 := if z0 =? 0xED then 0x9F else 0xBF in
            if in_range lo1 hi1 z1 && in_range 0x80 0xBF z2 then
              decoded (Z.lor (Z.shiftl (Z.land z0 0x0F) 12)
                        (Z.lor (Z.shiftl (Z.land z1 0x3F) 6) (Z.land z2 0x3F)))
                      (utf8_decode t2)
            else Raise UnicodeDecodeError
        | _ => Raise UnicodeDecodeError
        end
      else if z0 <? 0xF5 then
        match t0 with
        | b1 :: b2 :: b3 :: t3 =>
            let z1 := int_of_byte b1 in
            let z2 := int_of_byte b2 in
            let z3 := int_of_byte b3 in
            let lo1 := if z0 =? 0xF0 then 0x90 else 0x80 in
            let hi1 := if z0 =? 0xF4 then 0x8F else 0xBF in
            if in_range lo1 hi1 z1 && in_range 0x80 0xBF z2
               && in_range 0x80 0xBF z3 then
              decoded (Z.lor (Z.shiftl (Z.land z0 0x07) 18)
                        (Z.lor (Z.shiftl (Z.land z1 0x3F) 12)
                          (Z.lor (Z.shiftl (Z.land z2 0x3F) 6)
                                 (Z.land z3 0x3F))))
                      (utf8_decode t3)
            else Raise UnicodeDecodeError
        | _ => Raise UnicodeDecodeError
        end
      else Raise UnicodeDecodeError
  end.

(** *** Charmap codecs *)

(** [codecs.charmap_decode], strict, with a [str] table: a byte
    past the end of the table, or mapped to U+FFFE, is undefined. *)
Definition charmap_decode_byte (table : list Z) (b : byte) : result Z :=
  match nth_error table (Byte.to_nat b) with
  | Some c => if c =? 0xFFFE then Raise UnicodeDecodeError else Ok c
  | None => Raise UnicodeDecodeError
  end.

Definition charmap_decode (table : list Z) (bs : bytes) : result str :=
  mapM (charmap_decode_byte table) bs.

(** The decoding table of the standard [cp866] codec. *)
Definition cp866_decoding_table : list Z :=
  range 128 ++
  map (fun i => 0x0410 + i) (range 48) ++
  [ 0x2591; 0x2592; 0x2593; 0x2502; 0x2524; 0x2561; 0x2562; 0x2556;
    0x2555; 0x2563; 0x2551; 0x2557; 0x255D; 0x255C; 0x255B; 0x2510;
    0x2514; 0x2534; 0x252C; 0x251C; 0x2500; 0x253C; 0x255E; 0x255F;
    0x255A; 0x2554; 0x2569; 0x2566; 0x2560; 0x2550; 0x256C; 0x2567;
    0x2568; 0x2564; 0x2565; 0x2559; 0x2558; 0x2552; 0x2553; 0x256B;
    0x256A; 0x2518; 0x250C; 0x2588; 0x2584; 0x258C; 0x2590; 0x2580 ] ++
  map (fun i => 0x0440 + i) (range 16) ++
  [ 0x0401; 0x0451; 0x0404; 0x0454; 0x0407; 0x0457; 0x040E; 0x045E;
    0x00B0; 0x2219; 0x00B7; 0x221A; 0x2116; 0x00A4; 0x25A0; 0x00A0 ].

(** [bs.decode] from cp866, strict *)
Definition decode_cp866 (bs : bytes) : result str :=
  charmap_decode cp866_decoding_table bs.

(** *** Strings *)

Definition LF : Z := 10.
Definition CR : Z := 13.
Definition SP : Z := 32.

(** ASCII text as a [str], for literals. *)
Fixpoint of_string (s : String.string) : str :=
  match s with
  | String.EmptyString => []
  | String.String a t => Z.of_N (Ascii.N_of_ascii a) :: of_string t
  end.

Arguments of_string s%_string.

Fixpoint str_eqb (a b : str) : bool :=
  match a, b with
  | [], [] => true
  | x :: a', y :: b' => (x =? y) && str_eqb a' b'
  | _, _ => false
  end.

(** [s.endswith(suffix)] *)
Definition endswith (s suffix : str) : bool :=
  (length suffix <=? length s)%nat
  && str_eqb (skipn (length s - length suffix) s) suffix.

(** [s.lstrip] of the space character *)
Fixpoint lstrip_space (s : str) : str :=
  match s with
  | c :: t => if c =? SP then lstrip_space t else s
  | [] => []
  end.

(** The characters [str.splitlines] breaks a line at. *)
Definition is_linebreak (c : Z) : bool :=
  (c =? 0x0A) || (c =? 0x0B) || (c =? 0x0C) || (c =? 0x0D)
  || (c =? 0x1C) || (c =? 0x1D) || (c =? 0x1E)
  || (c =? 0x85) || (c =? 0x2028) || (c =? 0x2029).

(** [s.splitlines(True)]: every line keeps its terminator, and a carriage
    return directly followed by a line feed is one terminator. *)
Fixpoint splitlines_keepends (s : str) : list str :=
  match s with
  | [] => []
  | c :: t =>
      if is_linebreak c then
        if c =? CR then
          match t with
          | c' :: t' =>
              if c' =? LF then [CR; LF] :: splitlines_keepends t'
              else [c] :: splitlines_keepends t
          | [] => [[c]]
          end
        else [c] :: splitlines_keepends t
      else
        match splitlines_keepends t with
        | [] => [[c]]
        | l :: ls => (c :: l) :: ls
        end
  end.

(** [[0-9A-Fa-f]] *)
Definition is_hex (c : Z) : bool :=
  in_range 48 57 c || in_range 65 70 c || in_range 97 102 c.

Definition hex_value (c : Z) : result Z :=
  if in_range 48 57 c then Ok (c - 48)
  else if in_range 65 70 c then Ok (c - 55)
  else if in_range 97 102 c then Ok (c - 87)
  else Raise ValueError.

Fixpoint int_hex_from (acc : Z) (s : str) : result Z :=
  match s with
  | [] => Ok acc
  | c :: t => bind (hex_value c) (fun d => int_hex_from (16 * acc + d) t)
  end.

(** [int(s, 16)] on a string of hexadecimal digits, as the token patterns
    capture them; the empty string is a [ValueError]. *)
Definition int_hex (s : str) : result Z :=
  match s with
  | [] => Raise ValueError
  | _ => int_hex_from 0 s
  end.

(** *** Regular expressions

    [str] patterns are Unicode patterns: [\b] separates a word character
    from a non-word one, and a word character is an alphanumeric of the
    Unicode database or the underscore.  Below 128 the alphanumerics are
    the ASCII letters and digits; beyond, the database decides.  The
    database is an interface of the development: everything below is
    stated and proved for any database. *)

Class UnicodeDB : Type := { Py_UNICODE_ISALNUM : Z -> bool }.

Definition ascii_isalnum (c : Z) : bool :=
  in_range 48 57 c || in_range 65 90 c || in_range 97 122 c.

Definition is_word `{UnicodeDB} (c : Z) : bool :=
  if c <? 128 then ascii_isalnum c || (c =? 95)
  else Py_UNICODE_ISALNUM c.

Definition is_word_at `{UnicodeDB} (c : option Z) : bool :=
  match c with
  | Some c => is_word c
  | None => false
  end.

(** [\b] between the characters [prev] and [next] ([None] off the ends). *)
Definition word_boundary `{UnicodeDB} (prev next : option Z) : bool :=
  xorb (is_word_at prev) (is_word_at next).

Record match_obj : Type := {
  m_start : nat;
  m_end : nat;
  m_group1 : str
}.

(** One attempt of the pattern of a [k]-digit hexadecimal token between
    two word boundaries at the head of [s], [prev] being the character
    before it. *)
Definition hex_token_here `{UnicodeDB} (k : nat) (prev : option Z) (s : str)
  : bool :=
  word_boundary prev (nth_error s 0)
  && (length (firstn k s) =? k)%nat
  && forallb is_hex (firstn k s)
  && word_boundary (nth_error s (k - 1)) (nth_error s k).

(** The scan of [finditer]: [pos] is the offset of the head of [s], and
    [skip] counts the characters of the last match still to step over. *)
Fixpoint finditer_from `{UnicodeDB} (k : nat) (prev : option Z)
    (pos skip : nat) (s : str) : list match_obj :=
  match s with
  | [] => []
  | c :: t =>
      match skip with
      | S j => finditer_from k (Some c) (S pos) j t
      | O =>
          if hex_token_here k prev s then
            {| m_start := pos; m_end := (pos + k)%nat;
               m_group1 := firstn k s |}
            :: finditer_from k (Some c) (S pos) (k - 1) t
          else finditer_from k (Some c) (S pos) 0 t
      end
  end.

(** The list of the matches [finditer] yields on [s] for the pattern of a
    token of [k] hexadecimal digits between two word boundaries. *)
Definition finditer_hex_tokens `{UnicodeDB} (k : nat) (s : str)
  : list match_obj :=
  finditer_from k None 0 0 s.

Definition is_addr (a : str) : bool :=
  match a with
  | [h1; h2; h3; h4; colon; h5; h6; h7; h8] =>
      is_hex h1 && is_hex h2 && is_hex h3 && is_hex h4 && (colon =? 58)
      && is_hex h5 && is_hex h6 && is_hex h7 && is_hex h8
  | _ => false
  end.

Fixpoint until_newline (s : str) : str * str :=
  match s with
  | [] => ([], [])
  | c :: t =>
      if c =? LF then ([], s)
      else let (a, b) := until_newline t in (c :: a, b)
  end.

(** A match of the address pattern (four hexadecimal digits, a colon, four
    hexadecimal digits, then any run of characters up to the end) at the
    start of [line], giving groups 1 and 2.  The dot stops at a line feed,
    and the end anchor holds at the end of the string or before a final
    line feed. *)
Definition match_addr_rest (line : str) : option (str * str) :=
  if is_addr (firstn 9 line) then
    let (rest, after) := until_newline (skipn 9 line) in
    match after with
    | [] => Some (firstn 9 line, rest)
    | [_] => Some (firstn 9 line, rest)
    | _ => None
    end
  else None.

End Py.

Notation "x <- m ;; k" := (Py.bind m (fun x => k))
  (at level 61, m at next level, right associativity).

(** ** cp866.py *)

Module Cp866.
Import Py.

(** The generator of the [CP866] tuple: one entry per [i in range(256)]. *)
Definition CP866_entry (i : Z) : result bytes :=
  bs <- bytes_of_ints [i] ;;
  s <- decode_cp866 bs ;;
  utf8_encode s.

Definition CP866_init : result (list bytes) := mapM CP866_entry (range 256).

(** The tuple as the module holds it once imported. *)
Definition CP866 : list bytes :=
  Eval vm_compute in
    match CP866_init with
    | Ok t => t
    | Raise _ => []
    end.

Definition cp866_to_utf8 (data : bytes) : result str :=
  chunks <- mapM (fun b => tuple_getitem CP866 (int_of_byte b)) data ;;
  utf8_decode (List.concat chunks).

Definition cp866_to_utf8_fast (data : bytes) : result str :=
  decode_cp866 data.

End Cp866.

(** ** __main__.py *)

Module MdaViewer.
Import Py Cp866.

Section Fixers.
Context `{UnicodeDB}.

Definition render_byte_cp866 (b : Z) : result str :=
  if (b <? 0x20) || (b =? 0x7F) then Ok (of_string ".")
  else
    bs <- bytes_of_ints [b] ;;
    cp866_to_utf8 bs.

(** The three compiled patterns.  [_ADDR_RE] is only ever used through
    [match], and the token patterns through [finditer]. *)
Definition _ADDR_RE_match (line : str) : option (str * str) :=
  match_addr_rest line.
Definition _BYTE_TOK_RE_finditer (s : str) : list match_obj :=
  finditer_hex_tokens 2 s.
Definition _WORD_TOK_RE_finditer (s : str) : list match_obj :=
  finditer_hex_tokens 4 s.

(** [it[i].end()] *)
Definition end_of (it : list match_obj) (i : nat) : result nat :=
  match nth_error it i with
  | Some tok => Ok (m_end tok)
  | None => Raise IndexError
  end.

(** The width of the padding: the leading spaces of the stale tail, or 2. *)
Definition pad_of (tail : str) : nat :=
  let pad := (length tail - length (lstrip_space tail))%nat in
  if (pad <? 1)%nat then 2%nat else pad.

(** The loop building [bytes16] in the byte view. *)
Definition byte_view_bytes16 (it : list match_obj) : result (list Z) :=
  mapM (fun tok => int_hex (m_group1 tok)) (firstn 16 it).

(** The loop building [bytes16] in the word view. *)
Definition word_view_bytes16 (it : list match_obj) : result (list Z) :=
  ws <- mapM (fun tok => int_hex (m_group1 tok)) (firstn 8 it) ;;
  Ok (flat_map (fun w => let lo := Z.land w 0xFF in
                         let hi := Z.land (Z.shiftr w 8) 0xFF in
                         [lo; hi]) ws).

(** The join of [render_byte_cp866(b) for b in bytes16] *)
Definition ascii_fixed_of (bytes16 : list Z) : result str :=
  rendered <- mapM render_byte_cp866 bytes16 ;;
  Ok (concat rendered).

Definition try_fix_byte_view_line (line : str) : result (option str) :=
  match _ADDR_RE_match line with
  | None => Ok None
  | Some (addr, rest) =>
      let it := _BYTE_TOK_RE_finditer rest in
      if (length it <? 16)%nat then Ok None
      else
        bytes16 <- byte_view_bytes16 it ;;
        end_in_rest <- end_of it 15 ;;
        let split_pos := (length addr + end_in_rest)%nat in
        let tail := skipn split_pos line in
        let pad := pad_of tail in
        ascii_fixed <- ascii_fixed_of bytes16 ;;
        Ok (Some (firstn split_pos line ++ repeat SP pad ++ ascii_fixed))
  end.

Definition try_fix_word_view_line (line : str) : result (option str) :=
  match _ADDR_RE_match line with
  | None => Ok None
  | Some (addr, rest) =>
      let it := _WORD_TOK_RE_finditer rest in
      if (length it <? 8)%nat then Ok None
      else
        bytes16 <- word_view_bytes16 it ;;
        end_in_rest <- end_of it 7 ;;
        let split_pos := (length addr + end_in_rest)%nat in
        let tail := skipn split_pos line in
        let pad := pad_of tail in
        ascii_fixed <- ascii_fixed_of bytes16 ;;
        Ok (Some (firstn split_pos line ++ repeat SP pad ++ ascii_fixed))
  end.

(** The truth value of a [str | None]. *)
Definition truthy (v : option str) : option str :=
  match v with
  | Some (c :: s) => Some (c :: s)
  | _ => None
  end.

(** [try_fix_byte_view_line(core) or try_fix_word_view_line(core) or core] *)
Definition fixed_of (core : str) : result str :=
  b <- try_fix_byte_view_line core ;;
  match truthy b with
  | Some fixed => Ok fixed
  | None =>
      w <- try_fix_word_view_line core ;;
      match truthy w with
      | Some fixed => Ok fixed
      | None => Ok core
      end
  end.

(** The split of a line into [core] and [nl]. *)
Definition core_nl (line : str) : str * str :=
  if endswith line [CR; LF] then (firstn (length line - 2) line, [CR; LF])
  else if endswith line [LF] then (firstn (length line - 1) line, [LF])
  else (line, []).

(** The body of the loop of [fix_screen_text]: what is appended to
    [out_lines] for one line. *)
Definition fix_one_line (line : str) : result str :=
  let (core, nl) := core_nl line in
  fixed <- fixed_of core ;;
  Ok (fixed ++ nl).

Definition fix_screen_text (screen_text : str) : result str :=
  out_lines <- mapM fix_one_line (splitlines_keepends screen_text) ;;
  Ok (concat out_lines).

End Fixers.

(** *** The main loop

    The operating system is a script: what [os.getenv] gives, what
    [os.open] and the registration with the poll object come to, and what
    each turn of the loop gets from [poll.poll], from [os.read] and from
    [print], as far as the turn goes.  A system call returns, is cut short
    by the user's interrupt ([KeyboardInterrupt]), or fails with an
    [OSError].  A call of [print] prints, is cut short by the interrupt
    (this stands too for an interrupt taken while the chunk is decoded and
    patched, the text not being printed either way), fails with an
    [OSError], or raises another exception: a [UnicodeEncodeError] when
    the encoding of the standard output has no form for a character, a
    [ValueError] when the standard output is closed.  A run ends when
    [main] returns or lets an exception out; when the script runs out
    first, the loop is still polling. *)

Inductive sys (A : Type) : Type :=
| Returns (a : A)
| Interrupt
| Fails.

Arguments Returns {A} a.
Arguments Interrupt {A}.
Arguments Fails {A}.

Inductive printing : Type :=
| Printed
| Print_interrupted
| Print_OSError
| Print_raises (e : exn).

Record cycle : Type := {
  polled : sys (list (Z * Z));
  chunk : sys bytes;
  shown : printing
}.

Inductive ending : Type :=
| Exit (code : Z)
| Uncaught_KeyboardInterrupt
| Uncaught_OSError
| Uncaught (e : exn)
| Polling.

(** What was printed, one text per call of [print] that returned, and how
    the run ended. *)
Record run : Type := {
  written : list str;
  ended : ending
}.

Definition ESC : Z := 27.
Definition ANSI_CURSOR_HOME : str := ESC :: of_string "[0;0H".
Definition ANSI_ATTR_RESET : str := ESC :: of_string "[0m".

(** [select.POLLIN] *)
Definition POLLIN : Z := 1.

Definition no_pipe_message : str :=
  of_string "Environment variable MDA_PIPE must contain path to named pipe. Aborting.".

(** A call of [print] outside the [try], or in the handler: the exception
    it raises, if any, leaves [main]. *)
Definition print_or_raise (out : list str) (text : str) (p : printing)
    (after : ending) : run :=
  match p with
  | Printed => {| written := out ++ [text]; ended := after |}
  | Print_interrupted => {| written := out; ended := Uncaught_KeyboardInterrupt |}
  | Print_OSError => {| written := out; ended := Uncaught_OSError |}
  | Print_raises e => {| written := out; ended := Uncaught e |}
  end.

(** The handler of [KeyboardInterrupt]: print the reset sequence, which
    [print] ends with a line feed, and return 0. *)
Definition interrupted (out : list str) (reset : printing) : run :=
  print_or_raise out (ANSI_ATTR_RESET ++ [LF]) reset (Exit 0).

Section MainLoop.
Context `{UnicodeDB}.

(** The three statements run on a chunk read: decode, patch, and the text
    handed to [print], which adds nothing at its end. *)
Definition frame_of (data : bytes) : result str :=
  screen <- cp866_to_utf8 data ;;
  screen <- fix_screen_text screen ;;
  Ok (ANSI_CURSOR_HOME ++ screen).

(** [(fifo, select.POLLIN) in events] *)
Definition pollin_on (fifo : Z) (events : list (Z * Z)) : bool :=
  existsb (fun ev => (fst ev =? fifo) && (snd ev =? POLLIN)) events.

(** The [while True] loop inside its [try], [out] being what was printed
    so far and [reset] what the [print] of the handler does. *)
Fixpoint main_loop (fifo : Z) (cycles : list cycle) (reset : printing)
    (out : list str) : run :=
  match cycles with
  | [] => {| written := out; ended := Polling |}
  | c :: rest =>
      match polled c with
      | Interrupt => interrupted out reset
      | Fails => {| written := out; ended := Uncaught_OSError |}
      | Returns events =>
          if pollin_on fifo events then
            match chunk c with
            | Interrupt => interrupted out reset
            | Fails => {| written := out; ended := Uncaught_OSError |}
            | Returns data =>
                match frame_of data with
                | Raise e => {| written := out; ended := Uncaught e |}
                | Ok text =>
                    match shown c with
                    | Printed => main_loop fifo rest reset (out ++ [text])
                    | Print_interrupted => interrupted out reset
                    | Print_OSError =>
                        {| written := out; ended := Uncaught_OSError |}
                    | Print_raises e' =>
                        {| written := out; ended := Uncaught e' |}
                    end
                end
            end
          else main_loop fifo rest reset out
      end
  end.

(** [main], given the value of [MDA_PIPE], what the [print] of the message
    does, what [os.open] does, the turns of the loop and what the [print]
    of the handler does. *)
Definition main (mda_pipe : option str) (told : printing) (opened : sys Z)
    (cycles : list cycle) (reset : printing) : run :=
  match mda_pipe with
  | Some (_ :: _) =>
      match opened with
      | Returns fifo => main_loop fifo cycles reset []
      | Interrupt => {| written := []; ended := Uncaught_KeyboardInterrupt |}
      | Fails => {| written := []; ended := Uncaught_OSError |}
      end
  | _ => print_or_raise [] (no_pipe_message ++ [LF]) told (Exit 1)
  end.

End MainLoop.

End MdaViewer.

Import Py Cp866 MdaViewer.

(** * Notions used to state the properties *)

(** The alphanumerics of the Unicode database among the characters the
    CP866 table produces beyond ASCII: the Cyrillic letters.  The sample
    lines and screens below stay within ASCII and these characters, and
    are evaluated with this database. *)
Definition cp866_isalnum (c : Z) : bool :=
  in_range 0x0410 0x044F c
  || (c =? 0x0401) || (c =? 0x0451) || (c =? 0x0404) || (c =? 0x0454)
  || (c =? 0x0407) || (c =? 0x0457) || (c =? 0x040E) || (c =? 0x045E).

Definition cp866_unicode : UnicodeDB :=
  {| Py_UNICODE_ISALNUM := cp866_isalnum |}.

(** The character the code page gives a byte. *)
Definition cp866_char (b : byte) : Z :=
  nth (Byte.to_nat b) cp866_decoding_table 0.

(** The entry of the table for a byte. *)
Definition CP866_at (b : byte) : bytes :=
  nth (Byte.to_nat b) CP866 [].

(** The two layouts of a dump line. *)
Inductive layout : Set := ByteView | WordView.

(** Hexadecimal digits per token. *)
Definition digits (ly : layout) : nat :=
  match ly with ByteView => 2%nat | WordView => 4%nat end.

(** Index of the last token a layout consumes. *)
Definition last_index (ly : layout) : nat :=
  match ly with ByteView => 15%nat | WordView => 7%nat end.

Definition bytes16_of (ly : layout) : list match_obj -> result (list Z) :=
  match ly with
  | ByteView => byte_view_bytes16
  | WordView => word_view_bytes16
  end.

Section Notions.
Context `{UnicodeDB}.

(** The detector of a layout. *)
Definition try_fix (ly : layout) : str -> result (option str) :=
  match ly with
  | ByteView => try_fix_byte_view_line
  | WordView => try_fix_word_view_line
  end.

(** The tokens of a layout after the address field. *)
Definition tokens_of (ly : layout) (line : str) : option (list match_obj) :=
  match _ADDR_RE_match line with
  | Some (_, rest) => Some (finditer_hex_tokens (digits ly) rest)
  | None => None
  end.

(** The split point: the offset in the line of the end of the last token
    consumed. *)
Definition split_point (ly : layout) (line : str) : option nat :=
  match _ADDR_RE_match line with
  | Some (addr, rest) =>
      match nth_error (finditer_hex_tokens (digits ly) rest) (last_index ly) with
      | Some m => Some (length addr + m_end m)%nat
      | None => None
      end
  | None => None
  end.

(** The Byte Run: the 16 bytes reconstructed from the tokens. *)
Definition byte_run (ly : layout) (line : str) : option (list Z) :=
  match tokens_of ly line with
  | Some it =>
      if (length it <=? last_index ly)%nat then None
      else match bytes16_of ly it with
           | Ok run => Some run
           | Raise _ => None
           end
  | None => None
  end.

(** The layout the Line Classifier settles on, the byte view first. *)
Definition classified_as (core : str) : option layout :=
  match try_fix_byte_view_line core with
  | Ok (Some (_ :: _)) => Some ByteView
  | _ =>
      match try_fix_word_view_line core with
      | Ok (Some (_ :: _)) => Some WordView
      | _ => None
      end
  end.

(** What [fixed_of] returns, or the line itself should it raise. *)
Definition fixed_or_core (core : str) : str :=
  match fixed_of core with
  | Ok fixed => fixed
  | Raise _ => core
  end.

(** What the loop of [fix_screen_text] appends for a line. *)
Definition patch_line (line : str) : str :=
  match fix_one_line line with
  | Ok out => out
  | Raise _ => line
  end.

Definition no_linebreak (s : str) : bool :=
  forallb (fun c => negb (is_linebreak c)) s.

(** A line is tidy when, if the Line Classifier rewrites it, the only line
    break it holds is the final line feed, alone or after a carriage
    return, that [fix_screen_text] sets aside. *)
Definition tidy_line (line : str) : bool :=
  let core := fst (core_nl line) in
  match classified_as core with
  | Some _ => no_linebreak core
  | None => true
  end.

(** A line is settled when it is tidy and, if the Line Classifier rewrites
    it, its Byte Run does not start with a space and, in the word view, the
    byte-view detector still rejects the rewritten line. *)
Definition settled_line (line : str) : bool :=
  let core := fst (core_nl line) in
  match classified_as core with
  | Some ly =>
      no_linebreak core
      && match byte_run ly core with
         | Some (b :: _) => negb (b =? 0x20)
         | _ => true
         end
      && match ly with
         | ByteView => true
         | WordView =>
             match try_fix_byte_view_line (fixed_or_core core) with
             | Ok None => true
             | _ => false
             end
         end
  | None => true
  end.

End Notions.

Definition is_control (b : Z) : bool := (b <? 0x20) || (b =? 0x7F).

(** The character a reconstructed byte is shown as. *)
Definition render_char (b : Z) : Z :=
  if is_control b then 46 else nth (Z.to_nat b) cp866_decoding_table 0.

(** The length of the run of spaces a text starts with. *)
Fixpoint leading_spaces (s : str) : nat :=
  match s with
  | c :: t => if c =? SP then S (leading_spaces t) else O
  | [] => O
  end.

Definition padding_width (tail : str) : nat :=
  match leading_spaces tail with
  | O => 2%nat
  | S n => S n
  end.

Definition no_LF (s : str) : bool := forallb (fun c => negb (c =? LF)) s.

(** A well-formed token of [k] hexadecimal digits. *)
Definition token_ok (k : nat) (m : match_obj) : Prop :=
  length (m_group1 m) = k /\ forallb is_hex (m_group1 m) = true.

Definition is_byte (b : Z) : Prop := 0 <= b <= 255.

(** The two sample lines of the documentation of the viewer. *)
Definition byte_view_sample : str :=
  of_string "0000:0000  8A 10 00 00 00 00 00 00 00 00 00 00 00 00 00 00  ........".
Definition word_view_sample : str :=
  of_string "0000:0500  0000 2020 0000 0000 0000 0000 0000 0000  .... ....".

(** A line terminator as [str.splitlines] sees it, [next] being the
    character after it: a carriage return and a line feed, or one line
    break character that is not the first half of such a pair. *)
Definition terminator (term : str) (next : option Z) : Prop :=
  term = [CR; LF] \/
  exists c, term = [c] /\ is_linebreak c = true /\
            ~ (c = CR /\ next = Some LF).

(** A text cut into its lines: each a run free of line breaks and a
    terminator, the last one possibly a bare, non-empty run. *)
Inductive well_split : list str -> Prop :=
| ws_nil : well_split []
| ws_last (content : str) :
    content <> [] -> no_linebreak content = true -> well_split [content]
| ws_cons (content term : str) (ps : list str) :
    no_linebreak content = true ->
    terminator term (hd_error (concat ps)) ->
    well_split ps ->
    well_split ((content ++ term) :: ps).

(** The line a layout rebuilds from a split point and a Byte Run. *)
Definition rebuilt (line : str) (sp : nat) (run : list Z) : str :=
  firstn sp line ++ repeat SP (padding_width (skipn sp line))
  ++ map render_char run.

(** Matches ending by an offset, and matches in increasing order of end. *)
Definition ends_by (e : nat) (m : match_obj) : bool := (m_end m <=? e)%nat.
Definition ends_before (a b : match_obj) : Prop := (m_end a < m_end b)%nat.

(** The byte-view sample once fixed: 8A is the Cyrillic capital Ka. *)
Definition byte_view_sample_fixed : str :=
  of_string "0000:0000  8A 10 00 00 00 00 00 00 00 00 00 00 00 00 00 00  "
  ++ [0x041A] ++ of_string "...............".

Definition word_view_sample_fixed_line : str :=
  of_string "0000:0500  0000 2020 0000 0000 0000 0000 0000 0000  ..  ............".

(** An address followed by two byte tokens only. *)
Definition short_dump_line : str := of_string "0000:0000  8A 10".

(** A screen of three lines: the two samples and a status line. *)
Definition sample_screen : str :=
  byte_view_sample ++ [CR; LF] ++ word_view_sample ++ [LF]
  ++ of_string "Enter a command (H for help)".

(** A dump line whose first byte is a space, as the debugger shows it: two
    spaces of padding, then the space itself, then the other characters. *)
Definition space_first_line : str :=
  of_string "0000:0000  20 41 00 00 00 00 00 00 00 00 00 00 00 00 00 00   A..............".
Definition space_first_once : str :=
  of_string "0000:0000  20 41 00 00 00 00 00 00 00 00 00 00 00 00 00 00    A..............".
Definition space_first_twice : str :=
  of_string "0000:0000  20 41 00 00 00 00 00 00 00 00 00 00 00 00 00 00     A..............".

(** The sixteen bytes that line dumps. *)
Definition space_first_run : list Z :=
  [0x20; 0x41; 0; 0; 0; 0; 0; 0; 0; 0; 0; 0; 0; 0; 0; 0].

(** A dump line ended by a lone carriage return, and the line after it. *)
Definition cr_screen : str :=
  of_string "0000:0000  41 42 43 44 45 46 47 48 49 4A 4B 4C 4D 4E 4F 50  ABCDEFGHIJKLMNOP"
  ++ [CR] ++ of_string "next".
Definition cr_screen_fixed : str :=
  of_string "0000:0000  41 42 43 44 45 46 47 48 49 4A 4B 4C 4D 4E 4F 50  ABCDEFGHIJKLMNOPnext".
Definition cr_screen_fixed_twice : str :=
  of_string "0000:0000  41 42 43 44 45 46 47 48 49 4A 4B 4C 4D 4E 4F 50  ABCDEFGHIJKLMNOP".

(** A word-view line with eleven byte tokens before its eight words, whose
    new tail brings five more byte tokens. *)
Definition crowded_word_line : str :=
  of_string "0000:0500 11 11 11 11 11 11 11 11 11 11 11 4241 4100 0042 4241 4100 0042 4241 4100  ................".
Definition crowded_word_line_once : str :=
  of_string "0000:0500 11 11 11 11 11 11 11 11 11 11 11 4241 4100 0042 4241 4100 0042 4241 4100  AB.AB.AB.AB.AB.A".
Definition crowded_word_line_twice : str :=
  of_string "0000:0500 11 11 11 11 11 11 11 11 11 11 11 4241 4100 0042 4241 4100 0042 4241 4100  AB.AB.AB.AB.AB  ..........."
  ++ repeat 0x043B 5.

(** A line that both layouts classify: eight words, then sixteen bytes. *)
Definition two_layout_line : str :=
  of_string "0000:0000  1111 2222 3333 4444 5555 6666 7777 8888  41 42 43 44 45 46 47 48 49 4A 4B 4C 4D 4E 4F 50".
Definition two_layout_line_fixed : str :=
  two_layout_line ++ of_string "  ABCDEFGHIJKLMNOP".

(** The sample screen followed by a line that a lone carriage return ends
    and by a last line without terminator. *)
Definition mixed_screen : str :=
  sample_screen ++ [LF] ++ of_string ":g" ++ [CR] ++ of_string "Break due to G".

(** The number of line feeds of a text. *)
Definition count_LF (s : str) : nat := count_occ Z.eq_dec s LF.

(** A rendered character that is safe to show: neither a C0 control
    character, nor DEL, nor a line break of [str.splitlines]. *)
Definition printable (c : Z) : Prop :=
  0x20 <= c /\ c <> 0x7F /\ is_linebreak c = false.

(** The byte the code page decodes to a character, if any: the index of the
    character in the decoding table. *)
Fixpoint index_of (c : Z) (table : list Z) (i : nat) : option nat :=
  match table with
  | [] => None
  | x :: t => if x =? c then Some i else index_of c t (S i)
  end.

Definition cp866_byte_of (c : Z) : option byte :=
  match index_of c cp866_decoding_table 0 with
  | Some i => Byte.of_nat i
  | None => None
  end.
(** The groups of the word tokens that show the same memory as the groups
    of byte tokens given: every two bytes make a word, written with the
    digits of the second byte, the high one, first. *)
Fixpoint words_of (groups : list str) : list str :=
  match groups with
  | lo :: hi :: t => (hi ++ lo) :: words_of t
  | _ => []
  end.

(** The Byte Run that the values of the tokens consumed stand for: the
    values themselves in the byte view; in the word view, for each value,
    its low byte and then its high byte. *)
Definition run_of_values (ly : layout) (vals : list Z) : list Z :=
  match ly with
  | ByteView => vals
  | WordView => flat_map (fun w => [w mod 256; w / 256]) vals
  end.

(** A token of [k] digits lying in a line before the offset [split]: its
    text is the piece of the line it spans, past the nine characters of
    the address field. *)
Definition token_in_line (k : nat) (line : str) (split : nat)
    (tok : match_obj) : Prop :=
  m_end tok = (m_start tok + k)%nat /\
  (9 + m_end tok <= split)%nat /\
  m_group1 tok = firstn k (skipn (9 + m_start tok) line).

(** What a call of [print] that does not print lets out. *)
Definition raised_by (p : printing) : option ending :=
  match p with
  | Printed => None
  | Print_interrupted => Some Uncaught_KeyboardInterrupt
  | Print_OSError => Some Uncaught_OSError
  | Print_raises e => Some (Uncaught e)
  end.

(** What happens to a turn of the loop: nothing, when [poll] returns and
    either the pipe is not reported ready or [os.read] returns and the
    frame is printed; or the first thing to go wrong in it, which is the
    user's interrupt, an [OSError], or another exception raised by
    [print]. *)
Inductive turn : Type :=
| Turn_calm
| Turn_interrupted
| Turn_failed
| Turn_raised (e : exn).

Definition turn_of (fifo : Z) (c : cycle) : turn :=
  match polled c with
  | Interrupt => Turn_interrupted
  | Fails => Turn_failed
  | Returns events =>
      if pollin_on fifo events then
        match chunk c, shown c with
        | Interrupt, _ => Turn_interrupted
        | Fails, _ => Turn_failed
        | Returns _, Printed => Turn_calm
        | Returns _, Print_interrupted => Turn_interrupted
        | Returns _, Print_OSError => Turn_failed
        | Returns _, Print_raises e => Turn_raised e
        end
      else Turn_calm
  end.

(** A turn of the loop that no interrupt and no failure disturbs. *)
Definition quiet (fifo : Z) (c : cycle) : bool :=
  match turn_of fifo c with
  | Turn_calm => true
  | _ => false
  end.

(** The chunks a script hands to the loop: those of the turns where [poll]
    reports [POLLIN], and nothing else, on the pipe. *)
Fixpoint chunks_read (fifo : Z) (cycles : list cycle) : list bytes :=
  match cycles with
  | [] => []
  | c :: rest =>
      match polled c, chunk c with
      | Returns events, Returns data =>
          if pollin_on fifo events then data :: chunks_read fifo rest
          else chunks_read fifo rest
      | _, _ => chunks_read fifo rest
      end
  end.

Section MainNotions.
Context `{UnicodeDB}.

(** A text [main] prints for a chunk: the cursor-home sequence followed by
    the chunk decoded and patched. *)
Definition is_frame (data : bytes) (text : str) : Prop :=
  exists screen patched : str,
    cp866_to_utf8 data = Ok screen /\
    fix_screen_text screen = Ok patched /\
    text = ANSI_CURSOR_HOME ++ patched.

(** The text printed for a chunk. *)
Definition frame_text (data : bytes) : str :=
  match frame_of data with
  | Ok text => text
  | Raise _ => []
  end.

(** The frames printed for the chunks of a script. *)
Definition frames_of (fifo : Z) (cycles : list cycle) : list str :=
  map frame_text (chunks_read fifo cycles).

End MainNotions.

(** Sixteen bytes of memory as the byte view and as the word view show
    them after the address. *)
Definition memory_as_bytes : str :=
  of_string "  41 42 43 44 45 46 47 48 49 4A 4B 4C 4D 4E 4F 50".
Definition memory_as_words : str :=
  of_string "  4241 4443 4645 4847 4A49 4C4B 4E4D 504F".

(** A screen without dump line. *)
Definition help_screen : str :=
  of_string "Enter a command (H for help)" ++ [LF] ++ of_string ":g".

(** A script of four turns on the pipe 3: a timeout, a chunk to read, a
    hang-up reported together with [POLLIN], and an event on another
    descriptor. *)
Definition sample_cycles : list cycle :=
  [ {| polled := Returns []; chunk := Fails; shown := Print_OSError |};
    {| polled := Returns [(3, POLLIN)]; chunk := Returns [x6f; x6b];
       shown := Printed |};
    {| polled := Returns [(3, 17)]; chunk := Returns [x6e; x6f];
       shown := Printed |};
    {| polled := Returns [(4, POLLIN)]; chunk := Interrupt;
       shown := Printed |} ].

(** The same script followed by a turn in which the user interrupts the
    read, and by a turn that is never reached. *)
Definition interrupted_cycles : list cycle :=
  sample_cycles
  ++ [ {| polled := Returns [(3, POLLIN)]; chunk := Interrupt;
          shown := Printed |};
       {| polled := Returns [(3, POLLIN)]; chunk := Returns [x6e; x6f];
          shown := Printed |} ].

(** A script whose first chunk holds a character that the standard output
    cannot encode. *)
Definition unencodable_cycles : list cycle :=
  [ {| polled := Returns [(3, POLLIN)]; chunk := Returns [x80];
       shown := Print_raises UnicodeEncodeError |};
    {| polled := Returns [(3, POLLIN)]; chunk := Returns [x6f; x6b];
       shown := Printed |} ].

(** * The decoder *)

Lemma bind_Ok {A B : Type} (a : A) (k : A -> result B) :
  (x <- Ok a ;; k x) = k a.
Proof. reflexivity. Qed.

Lemma mapM_Ok_map {A B : Type} (f : A -> result B) (g : A -> B) (l : list A) :
  (forall a, f a = Ok (g a)) -> mapM f l = Ok (map g l).
Proof.
  intros Hf. induction l as [|a l IH]; simpl.
  - reflexivity.
  - rewrite Hf, IH. reflexivity.
Qed.

Lemma mapM_Ok_length {A B : Type} (f : A -> result B) (l : list A) (r : list B) :
  mapM f l = Ok r -> length r = length l.
Proof.
  revert r. induction l as [|a l IH]; simpl; intros r Hr.
  - injection Hr as <-. reflexivity.
  - destruct (f a); simpl in Hr; [|discriminate].
    destruct (mapM f l); simpl in Hr; [|discriminate].
    injection Hr as <-. simpl. f_equal. apply IH. reflexivity.
Qed.

Lemma CP866_init_ok : CP866_init = Ok CP866.
Proof. vm_compute. reflexivity. Qed.

Lemma CP866_getitem (b : byte) :
  tuple_getitem CP866 (int_of_byte b) = Ok (CP866_at b).
Proof. destruct b; reflexivity. Qed.

Lemma CP866_at_length (b : byte) :
  (1 <= length (CP866_at b) <= 3)%nat.
Proof. destruct b; vm_compute; split; repeat constructor. Qed.

(** Decoding the entry of [b] in front of anything yields the character of
    [b] in front of what the rest decodes to. *)
Lemma utf8_decode_CP866_at (b : byte) (rest : bytes) :
  utf8_decode (CP866_at b ++ rest) = decoded (cp866_char b) (utf8_decode rest).
Proof. destruct b; reflexivity. Qed.

Lemma charmap_decode_byte_cp866 (b : byte) :
  charmap_decode_byte cp866_decoding_table b = Ok (cp866_char b).
Proof. destruct b; reflexivity. Qed.

Lemma utf8_decode_entries (data : bytes) :
  utf8_decode (concat (map CP866_at data)) = Ok (map cp866_char data).
Proof.
  induction data as [|b data IH]; simpl.
  - reflexivity.
  - rewrite utf8_decode_CP866_at, IH. reflexivity.
Qed.

Lemma cp866_to_utf8_chars (data : bytes) :
  cp866_to_utf8 data = Ok (map cp866_char data).
Proof.
  unfold cp866_to_utf8.
  rewrite (mapM_Ok_map _ CP866_at) by apply CP866_getitem.
  rewrite bind_Ok. apply utf8_decode_entries.
Qed.

Lemma cp866_to_utf8_fast_chars (data : bytes) :
  cp866_to_utf8_fast data = Ok (map cp866_char data).
Proof.
  unfold cp866_to_utf8_fast, decode_cp866, charmap_decode.
  apply mapM_Ok_map, charmap_decode_byte_cp866.
Qed.

(** C8. The construction of the 256-entry table succeeds, and every byte
    value has an entry in it that is not empty and that decodes, alone, to
    exactly one character; decoding a single byte never fails. *)
Theorem CP866_table_total :
  CP866_init = Ok CP866 /\ length CP866 = 256%nat /\
  forall b : byte,
    exists (e : bytes) (c : Z),
      tuple_getitem CP866 (int_of_byte b) = Ok e /\
      (1 <= length e)%nat /\
      utf8_decode e = Ok [c] /\
      cp866_to_utf8 [b] = Ok [c].
Proof.
  split; [apply CP866_init_ok|]. split; [reflexivity|].
  intros b. exists (CP866_at b), (cp866_char b).
  split; [apply CP866_getitem|]. split; [apply CP866_at_length|]. split.
  - pose proof (utf8_decode_CP866_at b []) as E.
    rewrite app_nil_r in E. exact E.
  - apply (cp866_to_utf8_chars [b]).
Qed.

(** C9. On every byte sequence the table-driven decoder and the one-shot
    decoder of the same code page return the same text. *)
Theorem cp866_to_utf8_eq_fast (data : bytes) :
  cp866_to_utf8 data = cp866_to_utf8_fast data.
Proof.
  rewrite cp866_to_utf8_chars, cp866_to_utf8_fast_chars. reflexivity.
Qed.

(** C10. On every byte sequence [cp866_to_utf8] returns a text, of one
    character per input byte: neither the table lookup nor the strict UTF-8
    decoding can raise. *)
Theorem cp866_to_utf8_never_raises (data : bytes) :
  exists s : str, cp866_to_utf8 data = Ok s /\ length s = length data.
Proof.
  exists (map cp866_char data). split.
  - apply cp866_to_utf8_chars.
  - apply length_map.
Qed.

(** * The token scanner *)

Section Scanner.
Context `{UnicodeDB}.
Variable k : nat.
Hypothesis k_pos : (1 <= k)%nat.
Local Open Scope nat_scope.

Lemma is_hex_is_word (c : Z) : is_hex c = true -> is_word c = true.
Proof.
  unfold is_hex, is_word, ascii_isalnum, in_range. intros Hc.
  destruct (Z.ltb_spec c 128); lia.
Qed.

Lemma hex_token_here_facts (prev : option Z) (s : str) :
  hex_token_here k prev s = true ->
  length (firstn k s) = k /\ forallb is_hex (firstn k s) = true /\
  is_word_at (nth_error s k) = false.
Proof.
  unfold hex_token_here. intros Hm.
  apply andb_true_iff in Hm as [Hm Hb2].
  apply andb_true_iff in Hm as [Hm Hhex].
  apply andb_true_iff in Hm as [_ Hlen].
  apply Nat.eqb_eq in Hlen.
  repeat split; trivial.
  assert (Hin : is_word_at (nth_error s (k - 1)) = true).
  { destruct (nth_error s (k - 1)) as [c|] eqn:E.
    - simpl. apply is_hex_is_word.
      rewrite forallb_forall in Hhex. apply Hhex.
      apply nth_error_In with (n := k - 1).
      rewrite nth_error_firstn.
      destruct (Nat.ltb_spec (k - 1) k); [exact E | lia].
    - apply nth_error_None in E. rewrite length_firstn in Hlen. lia. }
  unfold word_boundary in Hb2. rewrite Hin in Hb2.
  destruct (is_word_at (nth_error s k)); [discriminate | reflexivity].
Qed.

(** Where the matches of a scan lie. *)
Lemma finditer_from_bounds (s : str) : forall prev pos skip,
  Forall (fun m => pos + skip <= m_start m /\ m_end m = m_start m + k /\
                   m_end m <= pos + length s /\
                   length (m_group1 m) = k /\
                   forallb is_hex (m_group1 m) = true /\
                   is_word_at (nth_error s (m_end m - pos)) = false)
         (finditer_from k prev pos skip s).
Proof.
  induction s as [|c t IH]; intros prev pos skip; simpl.
  - constructor.
  - assert (Hstep : forall prev' skip', pos + skip <= S pos + skip' ->
        Forall (fun m => pos + skip <= m_start m /\ m_end m = m_start m + k /\
                   m_end m <= pos + S (length t) /\
                   length (m_group1 m) = k /\
                   forallb is_hex (m_group1 m) = true /\
                   is_word_at (nth_error (c :: t) (m_end m - pos)) = false)
               (finditer_from k prev' (S pos) skip' t)).
    { intros prev' skip' Hle.
      eapply Forall_impl; [|apply (IH prev' (S pos) skip')].
      intros m (H1 & H2 & H3 & H4 & H5 & H6).
      repeat split; try lia; trivial.
      replace (m_end m - pos) with (S (m_end m - S pos)) by lia.
      exact H6. }
    destruct skip as [|j].
    + destruct (hex_token_here k prev (c :: t)) eqn:Hm.
      * constructor; [|apply Hstep; lia].
        apply hex_token_here_facts in Hm as (Hl & Hh & Hw). simpl m_end. simpl m_start.
        simpl m_group1.
        repeat split; try lia; trivial.
        -- rewrite length_firstn in Hl. simpl length in Hl. lia.
        -- replace (pos + k - pos) with k by lia. exact Hw.
      * apply Hstep; lia.
    + apply Hstep; lia.
Qed.

Lemma filter_none {A : Type} (f : A -> bool) (l : list A) :
  Forall (fun a => f a = false) l -> filter f l = [].
Proof.
  induction 1 as [|a l Ha _ IH]; simpl; [reflexivity|].
  rewrite Ha. exact IH.
Qed.

Lemma ends_by_none (s : str) (prev : option Z) (pos skip e : nat) :
  e < pos + skip + k ->
  filter (ends_by e) (finditer_from k prev pos skip s) = [].
Proof.
  intros He. apply filter_none.
  eapply Forall_impl; [|apply finditer_from_bounds].
  intros m (H1 & H2 & _). unfold ends_by. apply Nat.leb_gt. lia.
Qed.

Lemma finditer_from_sorted (s : str) : forall prev pos skip,
  StronglySorted ends_before (finditer_from k prev pos skip s).
Proof.
  induction s as [|c t IH]; intros prev pos skip; simpl.
  - constructor.
  - destruct skip as [|j]; [|apply IH].
    destruct (hex_token_here k prev (c :: t)); [|apply IH].
    constructor; [apply IH|].
    eapply Forall_impl; [|apply finditer_from_bounds].
    intros m (H1 & H2 & _). unfold ends_before. simpl. lia.
Qed.

(** In a list of matches in increasing order of end, those ending by [e]
    are the first ones. *)
Lemma ends_by_firstn (l : list match_obj) (e : nat) :
  StronglySorted ends_before l ->
  filter (ends_by e) l = firstn (length (filter (ends_by e) l)) l.
Proof.
  induction 1 as [|a l Hs IH Ha]; simpl; [reflexivity|].
  destruct (ends_by e a) eqn:Ea; simpl.
  - f_equal. exact IH.
  - rewrite filter_none; [reflexivity|].
    eapply Forall_impl; [|exact Ha].
    unfold ends_before, ends_by in *. intros b Hb.
    apply Nat.leb_gt in Ea. apply Nat.leb_gt. lia.
Qed.

Lemma ends_by_nth (l : list match_obj) : forall (n : nat) (m : match_obj),
  StronglySorted ends_before l ->
  nth_error l n = Some m ->
  filter (ends_by (m_end m)) l = firstn (S n) l.
Proof.
  induction l as [|a l IH]; intros n m Hs Hn.
  - destruct n; discriminate.
  - apply StronglySorted_inv in Hs as [Hs Ha].
    destruct n as [|n]; simpl in Hn.
    + injection Hn as ->. simpl. unfold ends_by at 1. rewrite Nat.leb_refl.
      f_equal. rewrite filter_none; [destruct l; reflexivity|].
      eapply Forall_impl; [|exact Ha].
      unfold ends_before, ends_by. intros b Hb. apply Nat.leb_gt. lia.
    + rewrite Forall_forall in Ha.
      pose proof (Ha m (nth_error_In _ _ Hn)) as Hlt.
      simpl. unfold ends_before in Hlt. unfold ends_by at 1.
      destruct (Nat.leb_spec (m_end a) (m_end m)); [|lia].
      f_equal. apply IH; assumption.
Qed.

Lemma hex_token_here_app (prev : option Z) (p t t' : str) :
  k <= length p ->
  is_word_at (nth_error t 0) = is_word_at (nth_error t' 0) ->
  hex_token_here k prev (p ++ t) = hex_token_here k prev (p ++ t').
Proof.
  intros Hk Hw. unfold hex_token_here.
  assert (Hf : forall u, firstn k (p ++ u) = firstn k p).
  { intros u. rewrite firstn_app. replace (k - length p) with 0 by lia.
    simpl. apply app_nil_r. }
  assert (Hn : forall u i, i < length p -> nth_error (p ++ u) i = nth_error p i).
  { intros u i Hi. apply nth_error_app1. exact Hi. }
  rewrite !Hf, (Hn t 0), (Hn t' 0), (Hn t (k - 1)), (Hn t' (k - 1)) by lia.
  f_equal. unfold word_boundary. f_equal.
  destruct (Nat.eq_dec k (length p)) as [->|Hne].
  - rewrite !nth_error_app2 by lia. rewrite Nat.sub_diag. exact Hw.
  - rewrite !Hn by lia. reflexivity.
Qed.

(** The matches that end within a prefix [p] of the scanned text depend on
    what follows [p] only through the kind of its first character. *)
Lemma ends_by_app (p : str) : forall prev pos skip t t',
  is_word_at (nth_error t 0) = is_word_at (nth_error t' 0) ->
  filter (ends_by (pos + length p)) (finditer_from k prev pos skip (p ++ t))
  = filter (ends_by (pos + length p)) (finditer_from k prev pos skip (p ++ t')).
Proof.
  induction p as [|c p IH]; intros prev pos skip t t' Hw.
  - simpl. rewrite !ends_by_none by lia. reflexivity.
  - destruct (Nat.leb_spec k (length (c :: p))) as [Hk|Hk].
    + assert (IH' : forall prev' skip',
          filter (ends_by (pos + length (c :: p)))
                 (finditer_from k prev' (S pos) skip' (p ++ t))
          = filter (ends_by (pos + length (c :: p)))
                   (finditer_from k prev' (S pos) skip' (p ++ t'))).
      { intros prev' skip'. simpl length.
        replace (pos + S (length p)) with (S pos + length p) by lia.
        apply IH, Hw. }
      change ((c :: p) ++ t) with (c :: (p ++ t)).
      change ((c :: p) ++ t') with (c :: (p ++ t')).
      cbn [finditer_from]. destruct skip as [|j]; [|apply IH'].
      change (c :: (p ++ t)) with ((c :: p) ++ t).
      change (c :: (p ++ t')) with ((c :: p) ++ t').
      rewrite (hex_token_here_app prev (c :: p) t t' Hk Hw).
      destruct (hex_token_here k prev ((c :: p) ++ t')); [|apply IH'].
      cbn [filter]. rewrite IH'.
      assert (Hf : firstn k ((c :: p) ++ t) = firstn k ((c :: p) ++ t')).
      { rewrite !firstn_app. replace (k - length (c :: p)) with 0 by lia.
        reflexivity. }
      rewrite Hf. reflexivity.
    + rewrite !ends_by_none by lia. reflexivity.
Qed.

(** If the [n]-th match ends where the prefix [p] ends, the first [n]
    matches are the same whatever follows [p], as long as it does not start
    with a word character. *)
Lemma first_matches_app (p t t' : str) (n : nat) (m : match_obj) :
  nth_error (finditer_hex_tokens k (p ++ t)) n = Some m ->
  m_end m = length p ->
  is_word_at (nth_error t' 0) = false ->
  firstn (S n) (finditer_hex_tokens k (p ++ t'))
  = firstn (S n) (finditer_hex_tokens k (p ++ t)).
Proof.
  unfold finditer_hex_tokens. intros Hn He Hw'.
  set (it := finditer_from k None 0 0 (p ++ t)) in *.
  set (it' := finditer_from k None 0 0 (p ++ t')).
  assert (Hw : is_word_at (nth_error t 0) = false).
  { pose proof (finditer_from_bounds (p ++ t) None 0 0) as Hb. fold it in Hb.
    rewrite Forall_forall in Hb.
    destruct (Hb m (nth_error_In _ _ Hn)) as (_ & _ & _ & _ & _ & Hx).
    rewrite He, Nat.sub_0_r, nth_error_app2, Nat.sub_diag in Hx by lia.
    exact Hx. }
  assert (Hflt : filter (ends_by (length p)) it' = filter (ends_by (length p)) it).
  { apply (ends_by_app p None 0 0 t' t). congruence. }
  assert (Hit : filter (ends_by (length p)) it = firstn (S n) it).
  { rewrite <- He. apply ends_by_nth; [apply finditer_from_sorted | exact Hn]. }
  assert (Hlen : length (firstn (S n) it) = S n).
  { rewrite length_firstn. apply Nat.min_l.
    apply Nat.le_succ_l, nth_error_Some. congruence. }
  pose proof (ends_by_firstn it' (length p)
                (finditer_from_sorted _ _ _ _)) as E.
  rewrite Hflt, Hit, Hlen in E. symmetry. exact E.
Qed.
End Scanner.

(** * Tables over the 256 byte values *)

Lemma range_forallb (f : Z -> bool) (n : nat) :
  forallb f (range n) = true ->
  forall b : Z, 0 <= b < Z.of_nat n -> f b = true.
Proof.
  intros Hall b Hb. rewrite forallb_forall in Hall. apply Hall.
  unfold range. apply in_map_iff. exists (Z.to_nat b). split.
  - lia.
  - apply in_seq. lia.
Qed.

Lemma byte_of_int_ok (b : Z) :
  0 <= b <= 255 ->
  exists bt : byte, byte_of_int b = Ok bt /\ Byte.to_nat bt = Z.to_nat b.
Proof.
  intros Hb. unfold byte_of_int.
  destruct (Z.ltb_spec b 0); [lia|]. destruct (Z.ltb_spec 255 b); [lia|]. simpl.
  destruct (Byte.of_N (Z.to_N b)) as [bt|] eqn:E.
  - exists bt. split; [reflexivity|].
    apply Byte.to_of_N in E. rewrite Byte.to_nat_via_N, E. lia.
  - apply Byte.of_N_None_iff in E. lia.
Qed.

Lemma render_byte_cp866_char (b : Z) :
  0 <= b <= 255 -> render_byte_cp866 b = Ok [render_char b].
Proof.
  intros Hb. unfold render_byte_cp866, render_char, is_control.
  destruct ((b <? 0x20) || (b =? 0x7F)); [reflexivity|].
  destruct (byte_of_int_ok b Hb) as (bt & Ebt & Hbt).
  unfold bytes_of_ints. simpl. rewrite Ebt. simpl.
  rewrite cp866_to_utf8_chars. simpl. unfold cp866_char. rewrite Hbt.
  reflexivity.
Qed.

(** A property of the byte values checked over the whole table. *)
Lemma byte_table (f : Z -> bool) :
  forallb f (range 256) = true -> forall b : Z, 0 <= b <= 255 -> f b = true.
Proof.
  intros Hall b Hb. apply (range_forallb f 256 Hall). lia.
Qed.

Lemma render_char_not_linebreak (b : Z) :
  0 <= b <= 255 -> is_linebreak (render_char b) = false.
Proof.
  intros Hb. apply negb_true_iff.
  revert b Hb. apply byte_table. vm_compute. reflexivity.
Qed.

Lemma render_char_space (b : Z) :
  0 <= b <= 255 -> render_char b = SP -> b = 0x20.
Proof.
  intros Hb E.
  assert (Ht : (negb (render_char b =? SP) || (b =? 0x20)) = true).
  { clear E. revert b Hb. apply byte_table. vm_compute. reflexivity. }
  rewrite E in Ht. simpl in Ht. apply Z.eqb_eq. exact Ht.
Qed.

(** * Hexadecimal tokens *)

Lemma hex_value_ok (c : Z) :
  is_hex c = true -> exists d, hex_value c = Ok d /\ 0 <= d <= 15.
Proof.
  unfold is_hex, hex_value, in_range. intros Hc.
  destruct (Z.leb_spec 48 c), (Z.leb_spec c 57); simpl in *;
    try (eexists; split; [reflexivity|lia]);
  destruct (Z.leb_spec 65 c), (Z.leb_spec c 70); simpl in *;
    try (eexists; split; [reflexivity|lia]);
  destruct (Z.leb_spec 97 c), (Z.leb_spec c 102); simpl in *;
    try (eexists; split; [reflexivity|lia]); discriminate.
Qed.

Lemma int_hex_from_ok (s : str) :
  forallb is_hex s = true ->
  forall acc, exists v,
    int_hex_from acc s = Ok (acc * 16 ^ Z.of_nat (length s) + v) /\
    0 <= v < 16 ^ Z.of_nat (length s).
Proof.
  induction s as [|c t IH]; intros Hs acc.
  - exists 0. simpl. split; [f_equal; lia | lia].
  - simpl in Hs. apply andb_true_iff in Hs as [Hc Ht].
    destruct (hex_value_ok c Hc) as (d & Ed & Hd).
    destruct (IH Ht (16 * acc + d)) as (v & Ev & Hv).
    exists (d * 16 ^ Z.of_nat (length t) + v).
    cbn [int_hex_from]. rewrite Ed. cbn [bind]. rewrite Ev.
    replace (Z.of_nat (length (c :: t))) with (Z.succ (Z.of_nat (length t)))
      by (simpl length; lia).
    rewrite Z.pow_succ_r by lia.
    split; [f_equal; ring | nia].
Qed.

(** The value of a token of [k] hexadecimal digits. *)
Lemma int_hex_ok (s : str) (k : nat) :
  (1 <= k)%nat -> length s = k -> forallb is_hex s = true ->
  exists v, int_hex s = Ok v /\ 0 <= v < 16 ^ Z.of_nat k.
Proof.
  intros Hk Hl Hs. destruct (int_hex_from_ok s Hs 0) as (v & Ev & Hv).
  exists v. rewrite Hl in *. split; [|exact Hv].
  unfold int_hex. destruct s; [simpl in Hl; lia|].
  rewrite Ev. f_equal.
Qed.

Lemma mapM_Forall2 {A B : Type} (f : A -> result B) (P : A -> B -> Prop)
    (l : list A) :
  Forall (fun a => exists b, f a = Ok b /\ P a b) l ->
  exists bs, mapM f l = Ok bs /\ Forall2 P l bs.
Proof.
  induction 1 as [|a l (b & Eb & Hb) _ (bs & Ebs & Hbs)].
  - exists []. split; [reflexivity | constructor].
  - exists (b :: bs). simpl. rewrite Eb, Ebs. split; [reflexivity|].
    constructor; assumption.
Qed.

(** * The Byte Run *)

Lemma tokens_ok `{UnicodeDB} (k : nat) (s : str) :
  (1 <= k)%nat -> Forall (token_ok k) (finditer_hex_tokens k s).
Proof.
  intros Hk. unfold finditer_hex_tokens.
  eapply Forall_impl; [|apply (finditer_from_bounds k Hk)].
  intros m (_ & _ & _ & Hl & Hh & _). split; assumption.
Qed.

Lemma token_values (k : nat) (l : list match_obj) :
  (1 <= k)%nat -> Forall (token_ok k) l ->
  exists vs, mapM (fun tok => int_hex (m_group1 tok)) l = Ok vs /\
             Forall2 (fun tok v => int_hex (m_group1 tok) = Ok v /\
                                   0 <= v < 16 ^ Z.of_nat k) l vs.
Proof.
  intros Hk Hl. apply mapM_Forall2.
  eapply Forall_impl; [|exact Hl].
  intros m [Hlen Hhex]. destruct (int_hex_ok _ k Hk Hlen Hhex) as (v & Ev & Hv).
  exists v. auto.
Qed.

Lemma Forall_firstn {A : Type} (P : A -> Prop) (n : nat) (l : list A) :
  Forall P l -> Forall P (firstn n l).
Proof.
  intros Hl. rewrite Forall_forall in *. intros a Ha.
  apply Hl. rewrite <- (firstn_skipn n l). apply in_or_app. left. exact Ha.
Qed.

Lemma word_bytes_range (w : Z) :
  0 <= w ->
  Z.land w 0xFF = w mod 256 /\
  (w < 65536 -> Z.land (Z.shiftr w 8) 0xFF = w / 256) /\
  is_byte (Z.land w 0xFF) /\ is_byte (Z.land (Z.shiftr w 8) 0xFF).
Proof.
  intros Hw.
  assert (Hland : forall x, 0 <= x -> Z.land x 0xFF = x mod 256).
  { intros x Hx. change 0xFF with (Z.ones 8). apply Z.land_ones. lia. }
  assert (Hshift : Z.shiftr w 8 = w / 256).
  { rewrite Z.shiftr_div_pow2 by lia. reflexivity. }
  assert (Hdiv : 0 <= w / 256) by (apply Z.div_pos; lia).
  rewrite Hshift, !Hland by assumption. unfold is_byte.
  pose proof (Z.mod_pos_bound w 256 ltac:(lia)).
  pose proof (Z.mod_pos_bound (w / 256) 256 ltac:(lia)).
  split; [reflexivity|]. split; [|split; lia].
  intros Hlt. apply Z.mod_small. split; [exact Hdiv|].
  apply Z.div_lt_upper_bound; lia.
Qed.

Lemma bytes16_ok (ly : layout) (it : list match_obj) :
  Forall (token_ok (digits ly)) it ->
  (last_index ly < length it)%nat ->
  exists run, bytes16_of ly it = Ok run /\ length run = 16%nat /\
              Forall is_byte run.
Proof.
  intros Hit Hlen. destruct ly; simpl in *.
  - unfold byte_view_bytes16.
    destruct (token_values 2 (firstn 16 it)) as (vs & Evs & Hvs);
      [lia | apply Forall_firstn, Hit |].
    exists vs. split; [exact Evs|]. split.
    + rewrite <- (Forall2_length Hvs), length_firstn. lia.
    + clear Evs. induction Hvs as [|m v l vs [_ Hv] _ IH]; constructor; trivial.
      unfold is_byte. change (16 ^ Z.of_nat 2) with 256 in Hv. lia.
  - unfold word_view_bytes16.
    destruct (token_values 4 (firstn 8 it)) as (ws & Ews & Hws);
      [lia | apply Forall_firstn, Hit |].
    rewrite Ews. cbn [bind]. eexists. split; [reflexivity|].
    assert (Hl : length ws = 8%nat).
    { rewrite <- (Forall2_length Hws), length_firstn. lia. }
    split.
    + clear Hws Ews. do 9 (destruct ws as [|? ws]; try discriminate).
      reflexivity.
    + clear Ews Hl. induction Hws as [|m w l ws [_ Hw] _ IH]; simpl.
      * constructor.
      * destruct (word_bytes_range w ltac:(lia)) as (_ & _ & H1 & H2).
        constructor; [exact H1|]. constructor; [exact H2|]. exact IH.
Qed.

(** The Byte Run is read off the tokens consumed, and off nothing else. *)
Lemma bytes16_firstn (ly : layout) (it it' : list match_obj) :
  firstn (S (last_index ly)) it' = firstn (S (last_index ly)) it ->
  bytes16_of ly it' = bytes16_of ly it.
Proof.
  destruct ly;
    unfold bytes16_of, byte_view_bytes16, word_view_bytes16, last_index;
    intros E; rewrite E; reflexivity.
Qed.

Lemma ascii_fixed_of_chars (run : list Z) :
  Forall is_byte run -> ascii_fixed_of run = Ok (map render_char run).
Proof.
  intros Hrun. unfold ascii_fixed_of.
  assert (E : mapM render_byte_cp866 run
              = Ok (map (fun b => [render_char b]) run)).
  { induction Hrun as [|b run Hb _ IH]; simpl; [reflexivity|].
    rewrite (render_byte_cp866_char b Hb), IH. reflexivity. }
  rewrite E. cbn [bind]. f_equal.
  clear. induction run as [|b run IH]; simpl; [reflexivity|].
  f_equal. exact IH.
Qed.

(** * Padding *)

Lemma lstrip_space_length (s : str) :
  (length s - length (lstrip_space s) = leading_spaces s)%nat.
Proof.
  assert (E : (length (lstrip_space s) + leading_spaces s = length s)%nat).
  { induction s as [|c t IH]; [reflexivity|].
    cbn [lstrip_space leading_spaces]. destruct (c =? SP).
    - cbn [length]. lia.
    - cbn [length]. lia. }
  lia.
Qed.

Lemma pad_of_width (tail : str) : pad_of tail = padding_width tail.
Proof.
  unfold pad_of, padding_width. rewrite lstrip_space_length.
  destruct (leading_spaces tail); reflexivity.
Qed.

Lemma leading_spaces_repeat (n : nat) (s : str) :
  leading_spaces (repeat SP n ++ s) = (n + leading_spaces s)%nat.
Proof.
  induction n as [|n IH]; simpl; [reflexivity|]. rewrite IH. reflexivity.
Qed.

(** * The address field *)

Lemma until_newline_spec (s : str) :
  forall a b, until_newline s = (a, b) ->
  s = a ++ b /\ no_LF a = true /\ (b = [] \/ exists b', b = LF :: b').
Proof.
  induction s as [|c t IH]; simpl; intros a b E.
  - injection E as <- <-. auto.
  - destruct (Z.eqb_spec c LF) as [->|Hc].
    + injection E as <- <-. split; [reflexivity|]. split; [reflexivity|].
      right. eexists. reflexivity.
    + destruct (until_newline t) as [a' b'] eqn:Et.
      injection E as <- <-. destruct (IH a' b' eq_refl) as (-> & Ha & Hb).
      split; [reflexivity|]. split; [|exact Hb].
      simpl. rewrite Ha. destruct (Z.eqb_spec c LF); [contradiction|reflexivity].
Qed.

Lemma until_newline_no_LF (s : str) :
  no_LF s = true -> until_newline s = (s, []).
Proof.
  induction s as [|c t IH]; simpl; intros Hs; [reflexivity|].
  apply andb_true_iff in Hs as [Hc Ht]. apply negb_true_iff in Hc.
  rewrite Hc, (IH Ht). reflexivity.
Qed.

Lemma is_addr_length (a : str) : is_addr a = true -> length a = 9%nat.
Proof.
  unfold is_addr. do 10 (destruct a as [|? a]; try discriminate). reflexivity.
Qed.

Lemma is_hex_not_linebreak (c : Z) : is_hex c = true -> is_linebreak c = false.
Proof.
  unfold is_hex, in_range, is_linebreak. intros Hc.
  repeat match goal with |- context [?x =? ?y] => destruct (Z.eqb_spec x y) end;
    subst; try discriminate; reflexivity.
Qed.

Lemma is_addr_no_linebreak (a : str) : is_addr a = true -> no_linebreak a = true.
Proof.
  unfold is_addr. do 10 (destruct a as [|? a]; try discriminate).
  intros Ha. repeat (apply andb_true_iff in Ha as [Ha ?]).
  match goal with Hc : (_ =? 58) = true |- _ => apply Z.eqb_eq in Hc; subst end.
  unfold no_linebreak. cbn [forallb].
  change (is_linebreak 58) with false.
  rewrite !is_hex_not_linebreak by assumption.
  reflexivity.
Qed.

Lemma no_linebreak_no_LF (s : str) : no_linebreak s = true -> no_LF s = true.
Proof.
  unfold no_linebreak, no_LF. rewrite !forallb_forall. intros Hs c Hc.
  specialize (Hs c Hc). apply negb_true_iff in Hs. apply negb_true_iff.
  destruct (Z.eqb_spec c LF) as [->|]; [discriminate | reflexivity].
Qed.

Lemma match_addr_rest_spec (line addr rest : str) :
  match_addr_rest line = Some (addr, rest) ->
  addr = firstn 9 line /\ is_addr addr = true /\ no_LF rest = true /\
  exists nl, (nl = [] \/ nl = [LF]) /\ line = addr ++ rest ++ nl.
Proof.
  unfold match_addr_rest. destruct (is_addr (firstn 9 line)) eqn:Ha;
    [|discriminate].
  destruct (until_newline (skipn 9 line)) as [a b] eqn:Eu.
  destruct (until_newline_spec _ _ _ Eu) as (Es & Hno & Hb).
  assert (Hline : line = firstn 9 line ++ a ++ b).
  { rewrite <- Es. symmetry. apply firstn_skipn. }
  destruct b as [|c [|c' b]]; intros E; try discriminate;
    injection E as <- <-; repeat split; trivial.
  - exists []. auto.
  - exists [LF]. split; [auto|].
    destruct Hb as [Hb | [b' Hb]]; [discriminate|]. injection Hb as -> _.
    exact Hline.
Qed.

Lemma match_addr_rest_app (addr rest : str) :
  is_addr addr = true -> no_LF rest = true ->
  match_addr_rest (addr ++ rest) = Some (addr, rest).
Proof.
  intros Ha Hr. pose proof (is_addr_length addr Ha) as Hl.
  unfold match_addr_rest.
  assert (Hf : firstn 9 (addr ++ rest) = addr).
  { rewrite firstn_app, Hl, firstn_all2 by lia. simpl. apply app_nil_r. }
  assert (Hs : skipn 9 (addr ++ rest) = rest).
  { rewrite skipn_app, Hl, skipn_all2 by lia. reflexivity. }
  rewrite Hf, Hs, Ha, (until_newline_no_LF rest Hr). reflexivity.
Qed.

(** * The line fixers *)

Section LineFixers.
Context `{UnicodeDB}.
Local Open Scope nat_scope.

Lemma digits_pos (ly : layout) : 1 <= digits ly.
Proof. destruct ly; simpl; lia. Qed.

(** Both fixers are one procedure, up to the token width, the token count
    and the loop that builds [bytes16]. *)
Lemma try_fix_unfold (ly : layout) (line : str) :
  try_fix ly line =
  match _ADDR_RE_match line with
  | None => Ok None
  | Some (addr, rest) =>
      let it := finditer_hex_tokens (digits ly) rest in
      if length it <? S (last_index ly) then Ok None
      else
        bytes16 <- bytes16_of ly it ;;
        end_in_rest <- end_of it (last_index ly) ;;
        let split_pos := length addr + end_in_rest in
        ascii_fixed <- ascii_fixed_of bytes16 ;;
        Ok (Some (firstn split_pos line
                  ++ repeat SP (pad_of (skipn split_pos line))
                  ++ ascii_fixed))
  end.
Proof. destruct ly; reflexivity. Qed.

Lemma try_fix_None (ly : layout) (line : str) :
  split_point ly line = None -> try_fix ly line = Ok None.
Proof.
  unfold split_point. rewrite try_fix_unfold.
  destruct (_ADDR_RE_match line) as [[addr rest]|]; [|reflexivity].
  destruct (nth_error _ _) eqn:En; [discriminate|]. intros _.
  apply nth_error_None in En. cbv zeta.
  destruct (Nat.ltb_spec (length (finditer_hex_tokens (digits ly) rest))
                         (S (last_index ly))); [reflexivity | lia].
Qed.

Lemma try_fix_classified (ly : layout) (line : str) (sp : nat) :
  split_point ly line = Some sp ->
  exists run,
    byte_run ly line = Some run /\ length run = 16 /\ Forall is_byte run /\
    try_fix ly line
    = Ok (Some (firstn sp line ++ repeat SP (padding_width (skipn sp line))
                ++ map render_char run)).
Proof.
  unfold split_point, byte_run, tokens_of. rewrite try_fix_unfold.
  destruct (_ADDR_RE_match line) as [[addr rest]|]; [|discriminate].
  set (it := finditer_hex_tokens (digits ly) rest).
  destruct (nth_error it (last_index ly)) as [m|] eqn:En; [|discriminate].
  intros E. injection E as <-.
  assert (Hlen : last_index ly < length it).
  { apply nth_error_Some. congruence. }
  destruct (bytes16_ok ly it) as (run & Erun & Hl & Hb);
    [apply tokens_ok, digits_pos | exact Hlen |].
  exists run. cbv zeta.
  destruct (Nat.leb_spec (length it) (last_index ly)); [lia|].
  destruct (Nat.ltb_spec (length it) (S (last_index ly))); [lia|].
  rewrite Erun. cbn [bind]. unfold end_of. rewrite En. cbn [bind].
  rewrite (ascii_fixed_of_chars run Hb). cbn [bind].
  rewrite pad_of_width. auto.
Qed.

(** The fixers never raise. *)
Lemma try_fix_cases (ly : layout) (line : str) :
  (split_point ly line = None /\ try_fix ly line = Ok None) \/
  (exists sp run,
     split_point ly line = Some sp /\
     byte_run ly line = Some run /\ length run = 16 /\ Forall is_byte run /\
     try_fix ly line
     = Ok (Some (firstn sp line ++ repeat SP (padding_width (skipn sp line))
                 ++ map render_char run))).
Proof.
  destruct (split_point ly line) as [sp|] eqn:Esp.
  - right. destruct (try_fix_classified ly line sp Esp) as (run & ?).
    exists sp, run. tauto.
  - left. split; [reflexivity | apply try_fix_None, Esp].
Qed.

Lemma try_fix_Some (ly : layout) (line out : str) :
  try_fix ly line = Ok (Some out) ->
  exists sp run,
    split_point ly line = Some sp /\
    byte_run ly line = Some run /\ length run = 16 /\ Forall is_byte run /\
    out = firstn sp line ++ repeat SP (padding_width (skipn sp line))
          ++ map render_char run.
Proof.
  intros E. destruct (try_fix_cases ly line) as [[_ E']|(sp & run & H1 & H2 & H3 & H4 & E')];
    rewrite E' in E; [discriminate|].
  injection E as <-. exists sp, run. auto.
Qed.

Lemma nth_error_firstn_last {A : Type} (l : list A) (n : nat) :
  nth_error (firstn (S n) l) n = nth_error l n.
Proof.
  rewrite nth_error_firstn. destruct (Nat.ltb_spec n (S n)); [reflexivity|lia].
Qed.

Lemma no_LF_app (a b : str) : no_LF (a ++ b) = no_LF a && no_LF b.
Proof. apply forallb_app. Qed.

Lemma no_LF_firstn (n : nat) (s : str) : no_LF s = true -> no_LF (firstn n s) = true.
Proof.
  intros Hs. rewrite <- (firstn_skipn n s), no_LF_app in Hs.
  apply andb_true_iff in Hs. tauto.
Qed.

(** Where a classified line splits: after the address and within the rest. *)
Lemma split_point_spec (ly : layout) (line : str) (sp : nat) :
  split_point ly line = Some sp ->
  exists addr rest m,
    _ADDR_RE_match line = Some (addr, rest) /\
    nth_error (finditer_hex_tokens (digits ly) rest) (last_index ly) = Some m /\
    sp = 9 + m_end m /\ m_end m <= length rest /\ digits ly <= m_end m /\
    firstn sp line = addr ++ firstn (m_end m) rest.
Proof.
  unfold split_point.
  destruct (_ADDR_RE_match line) as [[addr rest]|] eqn:Em; [|discriminate].
  destruct (nth_error _ _) as [m|] eqn:En; [|discriminate].
  intros E. injection E as <-. exists addr, rest, m.
  destruct (match_addr_rest_spec _ _ _ Em) as (Ha & Hia & Hno & nl & Hnl & Hline).
  pose proof (is_addr_length _ Hia) as Hl.
  pose proof (finditer_from_bounds (digits ly) (digits_pos ly) rest None 0 0) as Hb.
  rewrite Forall_forall in Hb.
  destruct (Hb m (nth_error_In _ _ En)) as (_ & Hme & Hle & _).
  repeat split; trivial; try lia.
  rewrite Hl, Hline at 1.
  rewrite firstn_app, Hl. replace (9 + m_end m - 9) with (m_end m) by lia.
  rewrite firstn_all2 by lia. f_equal.
  rewrite firstn_app. replace (m_end m - length rest) with 0 by lia.
  simpl. apply app_nil_r.
Qed.

(** The stale tail can be swapped for any text that holds no line feed and
    does not start with a word character: the line stays classified, with
    the same split point and the same Byte Run. *)
Lemma swap_tail (ly : layout) (line tail' : str) (sp : nat) (run : list Z) :
  split_point ly line = Some sp ->
  byte_run ly line = Some run ->
  no_LF tail' = true ->
  is_word_at (nth_error tail' 0) = false ->
  split_point ly (firstn sp line ++ tail') = Some sp /\
  byte_run ly (firstn sp line ++ tail') = Some run.
Proof.
  intros Hsp Hrun Hno Hw.
  destruct (split_point_spec ly line sp Hsp)
    as (addr & rest & m & Em & En & -> & Hle & _ & Hpre).
  destruct (match_addr_rest_spec _ _ _ Em) as (_ & Hia & Hnor & _).
  pose proof (is_addr_length _ Hia) as Hl.
  rewrite Hpre, <- app_assoc.
  set (p := firstn (m_end m) rest).
  assert (Hp : length p = m_end m).
  { unfold p. rewrite length_firstn. lia. }
  assert (Em' : _ADDR_RE_match (addr ++ p ++ tail') = Some (addr, p ++ tail')).
  { apply match_addr_rest_app; [exact Hia|].
    rewrite no_LF_app, Hno. unfold p. rewrite no_LF_firstn by exact Hnor.
    reflexivity. }
  assert (Hfirst : firstn (S (last_index ly))
                     (finditer_hex_tokens (digits ly) (p ++ tail'))
                   = firstn (S (last_index ly))
                       (finditer_hex_tokens (digits ly) rest)).
  { rewrite <- (firstn_skipn (m_end m) rest) at 1. fold p.
    apply (first_matches_app (digits ly) (digits_pos ly) p _ tail' _ m);
      [|congruence|exact Hw].
    unfold p. rewrite firstn_skipn. exact En. }
  assert (En' : nth_error (finditer_hex_tokens (digits ly) (p ++ tail'))
                          (last_index ly) = Some m).
  { rewrite <- nth_error_firstn_last, Hfirst, nth_error_firstn_last. exact En. }
  assert (Hlen : forall l : list match_obj,
            nth_error l (last_index ly) = Some m ->
            (length l <=? last_index ly) = false).
  { intros l Hl'. apply Nat.leb_gt, nth_error_Some. congruence. }
  split.
  - unfold split_point. rewrite Em', En', Hl. reflexivity.
  - revert Hrun. unfold byte_run, tokens_of. rewrite Em, Em'.
    rewrite (Hlen _ En), (Hlen _ En'), (bytes16_firstn ly _ _ Hfirst).
    trivial.
Qed.

End LineFixers.

Section LineClaims.
Context `{UnicodeDB}.

Lemma split_point_length (ly : layout) (line : str) (sp : nat) :
  split_point ly line = Some sp -> length (firstn sp line) = sp.
Proof.
  intros Hsp.
  destruct (split_point_spec ly line sp Hsp)
    as (addr & rest & m & Em & _ & -> & Hle & _ & ->).
  destruct (match_addr_rest_spec _ _ _ Em) as (_ & Hia & _).
  rewrite length_app, (is_addr_length _ Hia), length_firstn. lia.
Qed.

Lemma try_fix_swap_tail (ly : layout) (line tail' : str) (sp : nat)
    (run : list Z) :
  split_point ly line = Some sp ->
  byte_run ly line = Some run ->
  no_LF tail' = true ->
  is_word_at (nth_error tail' 0) = false ->
  try_fix ly (firstn sp line ++ tail')
  = Ok (Some (firstn sp line ++ repeat SP (padding_width tail')
              ++ map render_char run)).
Proof.
  intros Hsp Hrun Hno Hw.
  destruct (swap_tail ly line tail' sp run Hsp Hrun Hno Hw) as [Hsp' Hrun'].
  destruct (try_fix_classified ly _ sp Hsp') as (run' & Er & _ & _ & E).
  rewrite Hrun' in Er. injection Er as <-.
  pose proof (split_point_length ly line sp Hsp) as Hl.
  rewrite E.
  rewrite firstn_app, Hl, Nat.sub_diag, firstn_all2 by lia.
  rewrite skipn_app, Hl, Nat.sub_diag, skipn_all2 by lia.
  simpl. rewrite app_nil_r. reflexivity.
Qed.

Lemma rendered_one_each (run : list Z) :
  Forall is_byte run ->
  Forall2 (fun b c => render_byte_cp866 b = Ok [c]) run (map render_char run).
Proof.
  induction 1 as [|b run Hb _ IH]; simpl; constructor; trivial.
  apply render_byte_cp866_char, Hb.
Qed.

Lemma nth_error_tail16 (pre chars : str) (n i : nat) :
  length chars = n ->
  nth_error (pre ++ chars) (length (pre ++ chars) - n + i)
  = nth_error chars i.
Proof.
  intros <-. rewrite length_app, nth_error_app2 by lia. f_equal. lia.
Qed.

(** C3. Among the sixteen bytes reconstructed from a classified line, a
    byte below 0x20 or equal to 0x7F is shown as a period, although the
    code page maps it to the control character itself; any other byte is
    shown as the single-byte decoder gives it. *)
Theorem control_bytes_render_as_period (ly : layout) (line out : str) :
  try_fix ly line = Ok (Some out) ->
  exists run : list Z,
    byte_run ly line = Some run /\ length run = 16%nat /\
    forall (i : nat) (b : Z),
      nth_error run i = Some b ->
      exists bt : byte,
        bytes_of_ints [b] = Ok [bt] /\
        if (b <? 0x20) || (b =? 0x7F) then
          render_byte_cp866 b = Ok (of_string ".") /\
          cp866_to_utf8 [bt] = Ok [b] /\
          nth_error out (length out - 16 + i) = Some 46
        else
          render_byte_cp866 b = cp866_to_utf8 [bt] /\
          cp866_to_utf8 [bt] = Ok [cp866_char bt] /\
          nth_error out (length out - 16 + i) = Some (cp866_char bt).
Proof.
  intros E.
  destruct (try_fix_Some ly line out E) as (sp & run & Hsp & Hrun & Hl & Hb & ->).
  exists run. split; [exact Hrun|]. split; [exact Hl|].
  intros i b Hi.
  assert (Hbyte : is_byte b).
  { rewrite Forall_forall in Hb. apply Hb. eapply nth_error_In, Hi. }
  destruct (byte_of_int_ok b Hbyte) as (bt & Ebt & Hbt).
  exists bt.
  assert (Ebs : bytes_of_ints [b] = Ok [bt]).
  { unfold bytes_of_ints. simpl. rewrite Ebt. reflexivity. }
  split; [exact Ebs|].
  assert (Hout : nth_error
            (firstn sp line ++ repeat SP (padding_width (skipn sp line))
             ++ map render_char run)
            (length (firstn sp line
                     ++ repeat SP (padding_width (skipn sp line))
                     ++ map render_char run) - 16 + i)
          = Some (render_char b)).
  { rewrite app_assoc, nth_error_tail16 by (rewrite length_map; exact Hl).
    rewrite nth_error_map, Hi. reflexivity. }
  assert (Hchar : cp866_char bt = nth (Z.to_nat b) cp866_decoding_table 0).
  { unfold cp866_char. rewrite Hbt. reflexivity. }
  pose proof (render_byte_cp866_char b Hbyte) as Hr.
  rewrite Hout. unfold render_char, is_control in *.
  destruct ((b <? 0x20) || (b =? 0x7F)) eqn:Ec.
  - split; [exact Hr|]. split; [|reflexivity].
    rewrite cp866_to_utf8_chars. simpl. rewrite Hchar. do 2 f_equal.
    assert (Ht : (negb ((b <? 0x20) || (b =? 0x7F))
                  || (nth (Z.to_nat b) cp866_decoding_table 0 =? b)) = true).
    { clear - Hbyte. revert b Hbyte. apply byte_table. vm_compute. reflexivity. }
    rewrite Ec in Ht. simpl in Ht. apply Z.eqb_eq. exact Ht.
  - unfold render_byte_cp866. rewrite Ec, Ebs. cbn [bind].
    split; [reflexivity|]. rewrite cp866_to_utf8_chars. simpl.
    split; [reflexivity|]. rewrite Hchar. reflexivity.
Qed.


Lemma nth_error_pairs {A B : Type} (f g : A -> B) (l : list A) :
  forall i : nat,
    nth_error (flat_map (fun a => [f a; g a]) l) (2 * i)
    = option_map f (nth_error l i) /\
    nth_error (flat_map (fun a => [f a; g a]) l) (2 * i + 1)
    = option_map g (nth_error l i).
Proof.
  induction l as [|a l IH]; intros i.
  - cbn [flat_map]. rewrite !nth_error_nil. split; reflexivity.
  - destruct i as [|i].
    + split; reflexivity.
    + replace (2 * S i)%nat with (S (S (2 * i))) by lia.
      replace (S (S (2 * i)) + 1)%nat with (S (S (2 * i + 1))) by lia.
      exact (IH i).
Qed.

Lemma Forall2_nth_error_l {A B : Type} (P : A -> B -> Prop)
    (l : list A) (l' : list B) :
  Forall2 P l l' ->
  forall (i : nat) (a : A), nth_error l i = Some a ->
  exists b, nth_error l' i = Some b /\ P a b.
Proof.
  induction 1 as [|a0 b0 l l' H0 _ IH]; intros i a Hi.
  - destruct i; discriminate.
  - destruct i as [|i]; simpl in *.
    + injection Hi as <-. exists b0. auto.
    + apply IH, Hi.
Qed.

(** C2. In the word view each of the first eight tokens is read as an
    integer within 0..65535 and gives two bytes of the Byte Run, the low
    one ([w & 0xFF], that is [w mod 256]) before the high one
    ([(w >> 8) & 0xFF], that is [w / 256]); the token 2020 gives 0x20 and
    0x20. *)
Theorem word_view_little_endian (line out : str) :
  try_fix_word_view_line line = Ok (Some out) ->
  exists (addr rest : str) (ws run : list Z),
    _ADDR_RE_match line = Some (addr, rest) /\
    mapM (fun tok => int_hex (m_group1 tok))
         (firstn 8 (_WORD_TOK_RE_finditer rest)) = Ok ws /\
    length ws = 8%nat /\
    Forall (fun w => 0 <= w <= 65535) ws /\
    word_view_bytes16 (_WORD_TOK_RE_finditer rest) = Ok run /\
    run = flat_map (fun w => [w mod 256; w / 256]) ws /\
    (forall (i : nat) (w : Z),
        nth_error ws i = Some w ->
        nth_error run (2 * i) = Some (Z.land w 0xFF) /\
        nth_error run (2 * i + 1) = Some (Z.land (Z.shiftr w 8) 0xFF)) /\
    (forall (i : nat) (tok : match_obj),
        nth_error (_WORD_TOK_RE_finditer rest) i = Some tok ->
        (i < 8)%nat ->
        m_group1 tok = of_string "2020" ->
        nth_error run (2 * i) = Some 0x20 /\
        nth_error run (2 * i + 1) = Some 0x20) /\
    exists pre : str, out = pre ++ map render_char run.
Proof.
  intros E.
  destruct (try_fix_Some WordView line out E)
    as (sp & run & Hsp & Hrun & Hl & Hb & ->).
  unfold byte_run, tokens_of in Hrun.
  destruct (_ADDR_RE_match line) as [[addr rest]|] eqn:Em; [|discriminate].
  change (finditer_hex_tokens (digits WordView) rest)
    with (_WORD_TOK_RE_finditer rest) in Hrun.
  set (it := _WORD_TOK_RE_finditer rest) in *.
  destruct (Nat.leb_spec (length it) (last_index WordView)) as [|Hlen];
    [discriminate|].
  destruct (bytes16_of WordView it) as [run'|] eqn:Eb; [|discriminate].
  injection Hrun as ->.
  cbn [bytes16_of] in Eb.
  destruct (token_values 4 (firstn 8 it)) as (ws & Ews & Hws);
    [lia | apply Forall_firstn, (tokens_ok 4 rest); lia |].
  assert (Hrange : Forall (fun w => 0 <= w <= 65535) ws).
  { clear - Hws. induction Hws as [|m w l ws [_ Hw] _ IH]; constructor; trivial.
    change (16 ^ Z.of_nat 4) with 65536 in Hw. lia. }
  assert (Erun : run = flat_map (fun w => [Z.land w 0xFF;
                                           Z.land (Z.shiftr w 8) 0xFF]) ws).
  { unfold word_view_bytes16 in Eb. rewrite Ews in Eb. cbn [bind] in Eb.
    injection Eb as <-. reflexivity. }
  exists addr, rest, ws, run.
  split; [reflexivity|]. split; [exact Ews|].
  split.
  { rewrite <- (Forall2_length Hws), length_firstn. simpl in Hlen. lia. }
  split; [exact Hrange|]. split; [exact Eb|].
  assert (Hnth : forall (i : nat) (w : Z),
             nth_error ws i = Some w ->
             nth_error run (2 * i) = Some (Z.land w 0xFF) /\
             nth_error run (2 * i + 1) = Some (Z.land (Z.shiftr w 8) 0xFF)).
  { intros i w Hi. rewrite Erun.
    destruct (nth_error_pairs (fun w => Z.land w 0xFF)
                (fun w => Z.land (Z.shiftr w 8) 0xFF) ws i) as [E1 E2].
    rewrite E1, E2, Hi. split; reflexivity. }
  split.
  { rewrite Erun. clear - Hrange.
    induction Hrange as [|w ws Hw _ IH]; [reflexivity|].
    cbn [flat_map app]. rewrite IH.
    assert (H0 : 0 <= w) by lia.
    destruct (word_bytes_range w H0) as (E1 & E2 & _).
    rewrite E1, E2 by lia. reflexivity. }
  split; [exact Hnth|]. split.
  - intros i tok Hi Hlt Hg.
    assert (Hi' : nth_error (firstn 8 it) i = Some tok).
    { rewrite nth_error_firstn.
      destruct (Nat.ltb_spec i 8); [exact Hi | lia]. }
    destruct (Forall2_nth_error_l _ _ _ Hws i tok Hi') as (w & Hw & Ew & _).
    rewrite Hg in Ew. vm_compute in Ew. injection Ew as <-.
    exact (Hnth i _ Hw).
  - eexists. rewrite app_assoc. reflexivity.
Qed.

(** C4. A line that does not start with an address field, or on which the
    address pattern does not match, or that has an address but fewer than
    sixteen byte tokens and fewer than eight word tokens after it, is
    classified by neither detector, none of which raises, and the Line
    Classifier returns it as it is. *)
Theorem unclassified_line_unchanged (line : str) :
  is_addr (firstn 9 line) = false \/
  _ADDR_RE_match line = None \/
  (exists addr rest : str,
      _ADDR_RE_match line = Some (addr, rest) /\
      (length (_BYTE_TOK_RE_finditer rest) < 16)%nat /\
      (length (_WORD_TOK_RE_finditer rest) < 8)%nat) ->
  try_fix_byte_view_line line = Ok None /\
  try_fix_word_view_line line = Ok None /\
  fixed_of line = Ok line.
Proof.
  intros Hcase.
  assert (Hnone : try_fix_byte_view_line line = Ok None /\
                  try_fix_word_view_line line = Ok None).
  { unfold try_fix_byte_view_line, try_fix_word_view_line.
    destruct Hcase as [Ha | [Em | (addr & rest & Em & Hb & Hw)]].
    - unfold _ADDR_RE_match, match_addr_rest. rewrite Ha. auto.
    - rewrite Em. auto.
    - rewrite Em.
      destruct (Nat.ltb_spec (length (_BYTE_TOK_RE_finditer rest)) 16); [|lia].
      destruct (Nat.ltb_spec (length (_WORD_TOK_RE_finditer rest)) 8); [|lia].
      auto. }
  destruct Hnone as [Eb Ew]. split; [exact Eb|]. split; [exact Ew|].
  unfold fixed_of. rewrite Eb. cbn [bind truthy]. rewrite Ew. reflexivity.
Qed.

(** C6. The sample line of the word view is rejected by the byte-view
    detector and classified by the word-view one; its Byte Run is
    00 00 20 20 followed by twelve 00, and its new tail, after the two
    spaces of padding, is two periods, two spaces and twelve periods. *)
Theorem word_view_sample_fixed :
  try_fix_byte_view_line word_view_sample = Ok None /\
  classified_as word_view_sample = Some WordView /\
  split_point WordView word_view_sample = Some 50%nat /\
  byte_run WordView word_view_sample
  = Some [0; 0; 0x20; 0x20; 0; 0; 0; 0; 0; 0; 0; 0; 0; 0; 0; 0] /\
  padding_width (skipn 50 word_view_sample) = 2%nat /\
  fixed_of word_view_sample
  = Ok (firstn 50 word_view_sample ++ of_string "  "
        ++ of_string ".." ++ of_string "  " ++ of_string "............").
Proof. vm_compute. repeat split. Qed.

End LineClaims.

(** * Lines *)

Lemma splitlines_content (content : str) :
  no_linebreak content = true ->
  forall u : str,
    splitlines_keepends (content ++ u)
    = match splitlines_keepends u with
      | [] => match content with [] => [] | _ => [content] end
      | l :: ls => (content ++ l) :: ls
      end.
Proof.
  induction content as [|c t IH]; intros Hc u.
  - simpl. destruct (splitlines_keepends u); reflexivity.
  - simpl in Hc. apply andb_true_iff in Hc as [Hc Ht].
    apply negb_true_iff in Hc.
    change ((c :: t) ++ u) with (c :: (t ++ u)).
    cbn [splitlines_keepends]. rewrite Hc, (IH Ht u).
    destruct (splitlines_keepends u) as [|l ls]; [|reflexivity].
    destruct t; reflexivity.
Qed.

Lemma splitlines_terminator (term rest : str) :
  terminator term (hd_error rest) ->
  splitlines_keepends (term ++ rest) = term :: splitlines_keepends rest.
Proof.
  intros [-> | (c & -> & Hc & Hpair)].
  - reflexivity.
  - change ([c] ++ rest) with (c :: rest). cbn [splitlines_keepends].
    rewrite Hc. destruct (Z.eqb_spec c CR) as [->|Hne]; [|reflexivity].
    destruct rest as [|c' rest']; [reflexivity|].
    destruct (Z.eqb_spec c' LF) as [->|]; [|reflexivity].
    exfalso. apply Hpair. split; reflexivity.
Qed.

(** Splitting the concatenation of well-split lines gives the lines back. *)
Lemma well_split_resplit (ps : list str) :
  well_split ps -> splitlines_keepends (concat ps) = ps.
Proof.
  induction 1 as [|content Hne Hc|content term ps Hc Ht Hps IH].
  - reflexivity.
  - simpl. rewrite app_nil_r.
    rewrite <- (app_nil_r content) at 1.
    rewrite (splitlines_content content Hc []). simpl.
    destruct content; [contradiction | reflexivity].
  - cbn [concat]. rewrite <- app_assoc.
    rewrite (splitlines_content content Hc), (splitlines_terminator _ _ Ht), IH.
    reflexivity.
Qed.

Lemma well_split_cons_content (c : Z) (l : str) (ls : list str) :
  is_linebreak c = false ->
  well_split (l :: ls) -> well_split ((c :: l) :: ls).
Proof.
  intros Hc Hw. inversion Hw as [|content Hne Hcont|content term ps Hcont Ht Hps];
    subst.
  - apply ws_last; [discriminate|]. simpl. rewrite Hc. exact Hcont.
  - change (c :: content ++ term) with ((c :: content) ++ term).
    apply ws_cons; trivial. simpl. rewrite Hc. exact Hcont.
Qed.

(** [splitlines] cuts a text into well-split lines that concatenate back
    to it. *)
Lemma splitlines_spec_bounded (n : nat) : forall s : str,
  (length s <= n)%nat ->
  well_split (splitlines_keepends s) /\ concat (splitlines_keepends s) = s.
Proof.
  induction n as [|n IH]; intros s Hn.
  - destruct s; [|simpl in Hn; lia]. split; [constructor | reflexivity].
  - destruct s as [|c t]; [split; [constructor | reflexivity]|].
    simpl in Hn. cbn [splitlines_keepends].
    destruct (IH t ltac:(lia)) as [Hwt Hct].
    assert (Hone : forall term : str,
               terminator term (hd_error t) ->
               well_split (term :: splitlines_keepends t)).
    { intros term Hterm. rewrite <- (app_nil_l term).
      apply ws_cons; [reflexivity | rewrite Hct; exact Hterm | exact Hwt]. }
    destruct (is_linebreak c) eqn:Hc.
    + destruct (Z.eqb_spec c CR) as [->|Hne].
      * destruct t as [|c' t'].
        -- split; [|reflexivity]. apply (Hone [CR]). right.
           exists CR. repeat split; trivial. intros [_ Hx]. discriminate.
        -- destruct (Z.eqb_spec c' LF) as [->|Hne'].
           ++ simpl in Hn. destruct (IH t' ltac:(lia)) as [Hwt' Hct'].
              split; [|cbn [concat app]; rewrite Hct'; reflexivity].
              rewrite <- (app_nil_l [CR; LF]).
              apply ws_cons; [reflexivity | left; reflexivity | exact Hwt'].
           ++ split; [|cbn [concat app]; rewrite Hct; reflexivity]. apply (Hone [CR]).
              right. exists CR. repeat split; trivial.
              intros [_ Hx]. simpl in Hx. congruence.
      * split; [|cbn [concat app]; rewrite Hct; reflexivity]. apply (Hone [c]).
        right. exists c. repeat split; trivial. intros [Hx _]. contradiction.
    + destruct (splitlines_keepends t) as [|l ls] eqn:Et.
      * simpl in Hct. subst t. split; [|reflexivity].
        apply ws_last; [discriminate|]. simpl. rewrite Hc. reflexivity.
      * split; [apply well_split_cons_content; assumption|].
        simpl. simpl in Hct. rewrite Hct. reflexivity.
Qed.

Lemma splitlines_well_split (s : str) : well_split (splitlines_keepends s).
Proof. apply (splitlines_spec_bounded (length s) s (le_n _)). Qed.

Lemma splitlines_concat (s : str) : concat (splitlines_keepends s) = s.
Proof. apply (splitlines_spec_bounded (length s) s (le_n _)). Qed.

(** * Line terminators *)

Lemma str_eqb_eq (a b : str) : str_eqb a b = true <-> a = b.
Proof.
  revert b. induction a as [|x a IH]; intros [|y b]; simpl;
    try (split; [discriminate | discriminate]); [tauto|].
  rewrite andb_true_iff, Z.eqb_eq, IH. split.
  - intros [-> ->]. reflexivity.
  - intros E. injection E as -> ->. auto.
Qed.

Lemma endswith_app (a suffix : str) : endswith (a ++ suffix) suffix = true.
Proof.
  unfold endswith. rewrite length_app.
  destruct (Nat.leb_spec (length suffix) (length a + length suffix)); [|lia].
  replace (length a + length suffix - length suffix)%nat with (length a) by lia.
  rewrite skipn_app, Nat.sub_diag, skipn_all2 by lia. simpl.
  apply str_eqb_eq. reflexivity.
Qed.

Lemma endswith_inv (s suffix : str) :
  endswith s suffix = true ->
  s = firstn (length s - length suffix) s ++ suffix.
Proof.
  unfold endswith. intros E. apply andb_true_iff in E as [_ E].
  apply str_eqb_eq in E. set (n := (length s - length suffix)%nat) in *.
  rewrite <- E. symmetry. apply firstn_skipn.
Qed.

Lemma no_linebreak_app (a b : str) :
  no_linebreak (a ++ b) = no_linebreak a && no_linebreak b.
Proof. apply forallb_app. Qed.

Lemma no_linebreak_endswith (s : str) (c : Z) :
  no_linebreak s = true -> is_linebreak c = true -> endswith s [c] = false.
Proof.
  intros Hs Hc. destruct (endswith s [c]) eqn:E; [|reflexivity].
  apply endswith_inv in E. rewrite E, no_linebreak_app in Hs.
  apply andb_true_iff in Hs as [_ Hs]. simpl in Hs. rewrite Hc in Hs.
  discriminate.
Qed.

Lemma endswith_CRLF_LF (s : str) :
  endswith s [CR; LF] = true -> endswith s [LF] = true.
Proof.
  intros E. apply endswith_inv in E. rewrite E.
  change [CR; LF] with ([CR] ++ [LF]). rewrite app_assoc. apply endswith_app.
Qed.

Lemma core_nl_spec (line core nl : str) :
  core_nl line = (core, nl) ->
  line = core ++ nl /\ (nl = [] \/ nl = [LF] \/ nl = [CR; LF]).
Proof.
  unfold core_nl.
  destruct (endswith line [CR; LF]) eqn:E2.
  - intros E. injection E as <- <-. split; [|auto].
    apply (endswith_inv line [CR; LF] E2).
  - destruct (endswith line [LF]) eqn:E1; intros E; injection E as <- <-.
    + split; [|auto]. apply (endswith_inv line [LF] E1).
    + split; [|auto]. symmetry. apply app_nil_r.
Qed.

Lemma core_nl_app (content nl : str) :
  no_linebreak content = true ->
  nl = [] \/ nl = [LF] \/ nl = [CR; LF] ->
  core_nl (content ++ nl) = (content, nl).
Proof.
  intros Hc Hnl. unfold core_nl.
  assert (HLF : endswith content [LF] = false)
    by (apply no_linebreak_endswith; [exact Hc | reflexivity]).
  assert (HCR : endswith content [CR] = false)
    by (apply no_linebreak_endswith; [exact Hc | reflexivity]).
  destruct Hnl as [-> | [-> | ->]].
  - rewrite app_nil_r, HLF.
    destruct (endswith content [CR; LF]) eqn:E; [|reflexivity].
    apply endswith_CRLF_LF in E. congruence.
  - rewrite (endswith_app content [LF]).
    destruct (endswith (content ++ [LF]) [CR; LF]) eqn:E.
    + exfalso. apply endswith_inv in E.
      change [CR; LF] with ([CR] ++ [LF]) in E. rewrite app_assoc in E.
      apply app_inj_tail in E as [E _].
      rewrite E, endswith_app in HCR. discriminate.
    + rewrite length_app. simpl length.
      replace (length content + 1 - 1)%nat with (length content) by lia.
      rewrite firstn_app, Nat.sub_diag, firstn_all2 by lia.
      simpl. rewrite app_nil_r. reflexivity.
  - rewrite (endswith_app content [CR; LF]).
    rewrite length_app. simpl length.
    replace (length content + 2 - 2)%nat with (length content) by lia.
    rewrite firstn_app, Nat.sub_diag, firstn_all2 by lia.
    simpl. rewrite app_nil_r. reflexivity.
Qed.

Lemma core_nl_other (content : str) (c : Z) :
  c <> LF -> core_nl (content ++ [c]) = (content ++ [c], []).
Proof.
  intros Hc. unfold core_nl.
  assert (E1 : endswith (content ++ [c]) [LF] = false).
  { destruct (endswith (content ++ [c]) [LF]) eqn:E; [|reflexivity].
    apply endswith_inv in E. apply app_inj_tail in E as [_ E]. contradiction. }
  rewrite E1.
  destruct (endswith (content ++ [c]) [CR; LF]) eqn:E; [|reflexivity].
  apply endswith_CRLF_LF in E. congruence.
Qed.

(** * The Line Classifier *)

Section Classifier.
Context `{UnicodeDB}.

Lemma rebuilt_cons (line : str) (sp : nat) (run : list Z) :
  length run = 16%nat -> exists c s, rebuilt line sp run = c :: s.
Proof.
  intros Hl. destruct (rebuilt line sp run) as [|c s] eqn:E.
  - apply (f_equal (@length Z)) in E. unfold rebuilt in E.
    rewrite !length_app, length_map, Hl in E. simpl in E. lia.
  - eauto.
Qed.

(** The Line Classifier never raises: it returns the line as it is when no
    layout classifies it, and the line rebuilt by the first layout that
    does otherwise. *)
Lemma fixed_of_cases (core : str) :
  (classified_as core = None /\ fixed_of core = Ok core) \/
  (exists ly sp run,
      classified_as core = Some ly /\
      split_point ly core = Some sp /\ byte_run ly core = Some run /\
      length run = 16%nat /\ Forall is_byte run /\
      fixed_of core = Ok (rebuilt core sp run) /\
      (ly = WordView -> try_fix_byte_view_line core = Ok None)).
Proof.
  unfold classified_as, fixed_of.
  destruct (try_fix_cases ByteView core)
    as [[_ Eb] | (sp & run & Hsp & Hrun & Hl & Hb & Eb)];
    cbn [try_fix] in Eb; rewrite Eb; cbn [bind truthy].
  - destruct (try_fix_cases WordView core)
      as [[_ Ew] | (sp & run & Hsp & Hrun & Hl & Hb & Ew)];
      cbn [try_fix] in Ew; rewrite Ew; cbn [bind truthy].
    + left. auto.
    + right. exists WordView, sp, run. fold (rebuilt core sp run).
      destruct (rebuilt_cons core sp run Hl) as (c & s & ->).
      repeat split; trivial.
  - right. exists ByteView, sp, run. fold (rebuilt core sp run).
    destruct (rebuilt_cons core sp run Hl) as (c & s & ->).
    repeat split; trivial. discriminate.
Qed.

Lemma fixed_of_total (core : str) : fixed_of core = Ok (fixed_or_core core).
Proof.
  unfold fixed_or_core.
  destruct (fixed_of_cases core) as [[_ E] | (ly & sp & run & _ & _ & _ & _ & _ & E & _)];
    rewrite E; reflexivity.
Qed.

Lemma fix_one_line_total (line : str) : fix_one_line line = Ok (patch_line line).
Proof.
  unfold patch_line. unfold fix_one_line.
  destruct (core_nl line) as [core nl]. rewrite fixed_of_total. reflexivity.
Qed.

Lemma patch_line_eq (line core nl : str) :
  core_nl line = (core, nl) -> patch_line line = fixed_or_core core ++ nl.
Proof.
  intros E. unfold patch_line, fix_one_line. rewrite E, fixed_of_total.
  reflexivity.
Qed.

Lemma fix_screen_text_total (s : str) :
  fix_screen_text s = Ok (concat (map patch_line (splitlines_keepends s))).
Proof.
  unfold fix_screen_text.
  rewrite (mapM_Ok_map _ patch_line) by apply fix_one_line_total.
  reflexivity.
Qed.

Lemma no_linebreak_firstn (n : nat) (s : str) :
  no_linebreak s = true -> no_linebreak (firstn n s) = true.
Proof.
  intros Hs. rewrite <- (firstn_skipn n s), no_linebreak_app in Hs.
  apply andb_true_iff in Hs. tauto.
Qed.

Lemma rendered_no_linebreak (run : list Z) :
  Forall is_byte run -> no_linebreak (map render_char run) = true.
Proof.
  induction 1 as [|b run Hb _ IH]; simpl; [reflexivity|].
  rewrite (render_char_not_linebreak b Hb). exact IH.
Qed.

Lemma spaces_no_linebreak (n : nat) : no_linebreak (repeat SP n) = true.
Proof. induction n as [|n IH]; simpl; [reflexivity | exact IH]. Qed.

Lemma rebuilt_no_linebreak (core : str) (sp : nat) (run : list Z) :
  no_linebreak core = true -> Forall is_byte run ->
  no_linebreak (rebuilt core sp run) = true.
Proof.
  intros Hc Hb. unfold rebuilt.
  rewrite !no_linebreak_app, no_linebreak_firstn, spaces_no_linebreak,
    rendered_no_linebreak by assumption.
  reflexivity.
Qed.

(** A rebuilt line starts as the line does. *)
Lemma rebuilt_hd (ly : layout) (core : str) (sp : nat) (run : list Z) :
  split_point ly core = Some sp ->
  hd_error (rebuilt core sp run) = hd_error core.
Proof.
  intros Hsp.
  destruct (split_point_spec ly core sp Hsp)
    as (addr & rest & m & Em & _ & _ & _ & _ & Hpre).
  destruct (match_addr_rest_spec _ _ _ Em) as (_ & Hia & _ & nl & _ & Hline).
  pose proof (is_addr_length _ Hia) as Hl.
  unfold rebuilt. rewrite Hpre. rewrite Hline at 2.
  destruct addr; [discriminate | reflexivity].
Qed.

Lemma hd_error_app {A : Type} (a b : list A) :
  a <> [] -> hd_error (a ++ b) = hd_error a.
Proof. destruct a; [contradiction | reflexivity]. Qed.

Lemma patch_line_hd (line : str) : hd_error (patch_line line) = hd_error line.
Proof.
  destruct (core_nl line) as [core nl] eqn:Ec.
  rewrite (patch_line_eq _ _ _ Ec).
  destruct (core_nl_spec _ _ _ Ec) as [-> _].
  unfold fixed_or_core.
  destruct (fixed_of_cases core)
    as [[_ E] | (ly & sp & run & _ & Hsp & _ & Hl & _ & E & _)]; rewrite E;
    [reflexivity|].
  pose proof (rebuilt_hd ly core sp run Hsp) as Hhd.
  destruct (rebuilt_cons core sp run Hl) as (c & s & Er).
  rewrite Er in *. destruct core; [discriminate|]. exact Hhd.
Qed.

Lemma hd_error_concat_map (f : str -> str) (ps : list str) :
  (forall p, hd_error (f p) = hd_error p) ->
  hd_error (concat (map f ps)) = hd_error (concat ps).
Proof.
  intros Hf. induction ps as [|p ps IH]; [reflexivity|].
  cbn [map concat]. specialize (Hf p).
  destruct (f p), p; try discriminate; simpl in *; assumption.
Qed.

(** What patching does to a line cut by [splitlines]: nothing, or the core
    is rebuilt free of line breaks and the terminator is kept. *)
Lemma patch_line_tidy (content nl : str) :
  no_linebreak content = true ->
  nl = [] \/ nl = [LF] \/ nl = [CR; LF] ->
  exists fixed,
    patch_line (content ++ nl) = fixed ++ nl /\
    fixed = fixed_or_core content /\
    no_linebreak fixed = true /\ (content <> [] -> fixed <> []).
Proof.
  intros Hc Hnl. exists (fixed_or_core content).
  split; [apply patch_line_eq, core_nl_app; assumption|].
  split; [reflexivity|].
  unfold fixed_or_core.
  destruct (fixed_of_cases content)
    as [[_ E] | (ly & sp & run & _ & Hsp & _ & Hl & Hb & E & _)]; rewrite E.
  - auto.
  - split; [apply rebuilt_no_linebreak; assumption|].
    intros _. destruct (rebuilt_cons content sp run Hl) as (c & s & ->).
    discriminate.
Qed.

Lemma tidy_line_other (content : str) (c : Z) :
  is_linebreak c = true -> c <> LF ->
  tidy_line (content ++ [c]) = true ->
  patch_line (content ++ [c]) = content ++ [c].
Proof.
  intros Hc Hne. unfold tidy_line.
  rewrite (patch_line_eq _ _ _ (core_nl_other content c Hne)).
  rewrite (core_nl_other content c Hne). cbn [fst].
  unfold fixed_or_core.
  destruct (fixed_of_cases (content ++ [c]))
    as [[_ E] | (ly & sp & run & Ecl & _)].
  - rewrite E, app_nil_r. trivial.
  - rewrite Ecl, no_linebreak_app. simpl. rewrite Hc.
    rewrite andb_false_r. discriminate.
Qed.

(** Patching tidy lines keeps them well split. *)
Lemma well_split_patch (ps : list str) :
  well_split ps ->
  forallb tidy_line ps = true ->
  well_split (map patch_line ps).
Proof.
  induction 1 as [|content Hne Hc|content term ps Hc Ht Hps IH]; intros Htidy.
  - constructor.
  - destruct (patch_line_tidy content [] Hc ltac:(auto))
      as (fixed & E & _ & Hf & Hfne).
    rewrite !app_nil_r in E. simpl. rewrite E.
    apply ws_last; auto.
  - cbn [forallb] in Htidy. apply andb_true_iff in Htidy as [Htl Htidy].
    cbn [map].
    assert (Hnext : hd_error (concat (map patch_line ps))
                    = hd_error (concat ps))
      by apply hd_error_concat_map, patch_line_hd.
    assert (Hkeep : forall nl, term = nl -> nl = [LF] \/ nl = [CR; LF] ->
              well_split (patch_line (content ++ nl) :: map patch_line ps)).
    { intros nl <- Hnl.
      destruct (patch_line_tidy content term Hc ltac:(tauto))
        as (fixed & E & _ & Hf & _).
      rewrite E. apply ws_cons; [exact Hf | rewrite Hnext; exact Ht | auto]. }
    destruct Ht as [-> | (c & -> & Hlb & Hpair)].
    + apply (Hkeep [CR; LF]); auto.
    + destruct (Z.eq_dec c LF) as [->|Hne].
      * apply (Hkeep [LF]); auto.
      * rewrite (tidy_line_other content c Hlb Hne Htl).
        apply ws_cons; [exact Hc | | auto].
        right. exists c. rewrite Hnext. auto.
Qed.

End Classifier.

(** * The reconstruction of a dump line *)

Section Reconstruction.
Context `{UnicodeDB}.
Local Open Scope nat_scope.

(** The text of a match is the piece of the scanned text it spans. *)
Lemma finditer_from_groups (k : nat) (s : str) : forall prev pos skip,
  Forall (fun m => pos <= m_start m /\
                   m_group1 m = firstn k (skipn (m_start m - pos) s))
         (finditer_from k prev pos skip s).
Proof.
  induction s as [|c t IH]; intros prev pos skip; simpl.
  - constructor.
  - assert (Hstep : forall prev' skip',
        Forall (fun m => pos <= m_start m /\
                         m_group1 m = firstn k (skipn (m_start m - pos) (c :: t)))
               (finditer_from k prev' (S pos) skip' t)).
    { intros prev' skip'. eapply Forall_impl; [|apply (IH prev' (S pos) skip')].
      intros m [H1 H2]. split; [lia|].
      replace (m_start m - pos) with (S (m_start m - S pos)) by lia.
      exact H2. }
    destruct skip as [|j]; [|apply Hstep].
    destruct (hex_token_here k prev (c :: t)); [|apply Hstep].
    constructor; [|apply Hstep].
    simpl. rewrite Nat.sub_diag. split; [lia | reflexivity].
Qed.

Lemma mapM_Ok_Forall2 {A B : Type} (f : A -> result B) (l : list A) :
  forall bs : list B,
    mapM f l = Ok bs -> Forall2 (fun a b => f a = Ok b) l bs.
Proof.
  induction l as [|a l IH]; simpl; intros bs E.
  - injection E as <-. constructor.
  - destruct (f a) as [b|] eqn:Ea; [|discriminate]. cbn [bind] in E.
    destruct (mapM f l) as [bs'|]; [|discriminate]. cbn [bind] in E.
    injection E as <-. constructor; [exact Ea | apply IH; reflexivity].
Qed.

(** What the loops building [bytes16] compute, in terms of the values of
    the tokens. *)
Lemma bytes16_of_values (ly : layout) (it : list match_obj) (run : list Z) :
  Forall (token_ok (digits ly)) it ->
  bytes16_of ly it = Ok run ->
  exists vals : list Z,
    Forall2 (fun tok v => int_hex (m_group1 tok) = Ok v)
            (firstn (S (last_index ly)) it) vals /\
    run = run_of_values ly vals.
Proof.
  intros Hok E. destruct ly; cbn [bytes16_of] in E.
  - exists run. split; [|reflexivity].
    apply mapM_Ok_Forall2. exact E.
  - unfold word_view_bytes16 in E.
    destruct (token_values 4 (firstn 8 it)) as (ws & Ews & Hws);
      [lia | apply Forall_firstn, Hok |].
    rewrite Ews in E. cbn [bind] in E. injection E as <-.
    exists ws. split; [apply mapM_Ok_Forall2, Ews|].
    cbn [run_of_values]. clear Ews.
    induction Hws as [|m w l ws [_ Hw] _ IH]; [reflexivity|].
    cbn [flat_map app]. rewrite IH.
    change (16 ^ Z.of_nat 4)%Z with 65536%Z in Hw.
    assert (H0 : (0 <= w)%Z) by lia.
    destruct (word_bytes_range w H0) as (E1 & E2 & _).
    rewrite E1, E2 by lia. reflexivity.
Qed.

(** The tokens consumed lie, with their text, before the split point. *)
Lemma tokens_in_line (ly : layout) (line addr rest : str) (last : match_obj) :
  _ADDR_RE_match line = Some (addr, rest) ->
  nth_error (finditer_hex_tokens (digits ly) rest) (last_index ly) = Some last ->
  Forall (token_in_line (digits ly) line (9 + m_end last))
         (firstn (S (last_index ly)) (finditer_hex_tokens (digits ly) rest)).
Proof.
  intros Em En.
  destruct (match_addr_rest_spec _ _ _ Em) as (_ & Hia & _ & nl & _ & Hline).
  pose proof (is_addr_length _ Hia) as Hl.
  set (it := finditer_hex_tokens (digits ly) rest) in *.
  pose proof (finditer_from_bounds (digits ly) (digits_pos ly) rest None 0 0)
    as Hb.
  pose proof (finditer_from_groups (digits ly) rest None 0 0) as Hg.
  pose proof (ends_by_nth (digits ly) (digits_pos ly) it (last_index ly) last
                (finditer_from_sorted (digits ly) (digits_pos ly) rest None 0 0)
                En) as Hf.
  fold (finditer_hex_tokens (digits ly) rest) in Hb, Hg. fold it in Hb, Hg.
  rewrite Forall_forall in *. intros tok Hin.
  assert (Hin' : In tok it).
  { rewrite <- (firstn_skipn (S (last_index ly)) it). apply in_or_app. auto. }
  rewrite <- Hf in Hin. apply filter_In in Hin as [_ Hend].
  unfold ends_by in Hend. apply Nat.leb_le in Hend.
  destruct (Hb tok Hin') as (_ & Hme & Hle & _).
  destruct (Hg tok Hin') as (_ & Hgr).
  rewrite Nat.sub_0_r in Hgr. simpl in Hle.
  repeat split; [exact Hme | lia |].
  rewrite Hgr, Hline, skipn_app, Hl.
  rewrite (skipn_all2 addr) by lia.
  replace (9 + m_start tok - 9) with (m_start tok) by lia.
  cbn [app]. rewrite skipn_app, firstn_app.
  replace (digits ly - length (skipn (m_start tok) rest)) with 0
    by (rewrite length_skipn; lia).
  cbn [firstn]. rewrite app_nil_r. reflexivity.
Qed.

(** C1. Take a line on which the address pattern matches and whose rest
    holds at least sixteen byte tokens (eight word tokens).  The detector
    of that layout rebuilds it as: the text of the line up to the split
    point (the end of the last token consumed), then as many spaces as the
    stale tail starts with, or two when it starts with none, then sixteen
    characters.  These characters are the renderings, in order, of the
    Byte Run, which is read off the hexadecimal values of the tokens
    consumed, all of them pieces of the line before the split point.  So
    swapping the stale tail for any other text (free of line feeds and not
    starting with a word character, which would lengthen the last token)
    leaves the split point and the sixteen characters as they are.  The
    Line Classifier returns that line whenever this layout is the one it
    settles on. *)
Theorem dump_line_reconstruction (ly : layout) (line addr rest : str) :
  _ADDR_RE_match line = Some (addr, rest) ->
  last_index ly < length (finditer_hex_tokens (digits ly) rest) ->
  exists (toks : list match_obj) (last : match_obj) (split : nat)
         (vals run : list Z) (chars out : str),
    toks = firstn (S (last_index ly)) (finditer_hex_tokens (digits ly) rest) /\
    length toks = S (last_index ly) /\
    nth_error toks (last_index ly) = Some last /\
    split = 9 + m_end last /\
    Forall (token_in_line (digits ly) line split) toks /\
    Forall2 (fun tok v => int_hex (m_group1 tok) = Ok v) toks vals /\
    run = run_of_values ly vals /\
    length run = 16 /\
    chars = map render_char run /\
    Forall2 (fun b c => render_byte_cp866 b = Ok [c]) run chars /\
    out = firstn split line
          ++ repeat SP (padding_width (skipn split line)) ++ chars /\
    try_fix ly line = Ok (Some out) /\
    (ly = ByteView \/ length (_BYTE_TOK_RE_finditer rest) < 16 ->
     fixed_of line = Ok out) /\
    forall tail' : str,
      no_LF tail' = true ->
      is_word_at (nth_error tail' 0) = false ->
      try_fix ly (firstn split line ++ tail')
      = Ok (Some (firstn split line
                  ++ repeat SP (padding_width tail') ++ chars)).
Proof.
  intros Em Hlen.
  set (it := finditer_hex_tokens (digits ly) rest) in *.
  destruct (nth_error it (last_index ly)) as [last|] eqn:En;
    [|apply nth_error_None in En; lia].
  assert (Hia : length addr = 9).
  { destruct (match_addr_rest_spec _ _ _ Em) as (_ & Hia & _).
    apply is_addr_length, Hia. }
  assert (Hsp : split_point ly line = Some (9 + m_end last)).
  { unfold split_point. rewrite Em. fold it. rewrite En, Hia. reflexivity. }
  destruct (try_fix_classified ly line _ Hsp) as (run & Hrun & Hl & Hb & E).
  assert (Eb : bytes16_of ly it = Ok run).
  { revert Hrun. unfold byte_run, tokens_of. rewrite Em. fold it.
    destruct (Nat.leb_spec (length it) (last_index ly)); [lia|].
    destruct (bytes16_of ly it); [|discriminate].
    intros E'. injection E' as ->. reflexivity. }
  destruct (bytes16_of_values ly it run) as (vals & Hvals & Hrv);
    [apply tokens_ok, digits_pos | exact Eb |].
  exists (firstn (S (last_index ly)) it), last, (9 + m_end last), vals, run,
    (map render_char run).
  eexists. split; [reflexivity|].
  split; [rewrite length_firstn; lia|].
  split; [rewrite nth_error_firstn_last; exact En|].
  split; [reflexivity|].
  split; [apply (tokens_in_line ly line addr rest last Em En)|].
  split; [exact Hvals|]. split; [exact Hrv|]. split; [exact Hl|].
  split; [reflexivity|]. split; [apply rendered_one_each, Hb|].
  split; [reflexivity|]. split; [exact E|]. split.
  - fold (rebuilt line (9 + m_end last) run) in *.
    destruct (rebuilt_cons line (9 + m_end last) run Hl) as (c & r & Er).
    intros Hfirst. unfold fixed_of.
    destruct ly; cbn [try_fix] in E.
    + rewrite E. cbn [bind]. rewrite Er. reflexivity.
    + destruct Hfirst as [Hfirst | Hfirst]; [discriminate|].
      assert (Enone : try_fix ByteView line = Ok None).
      { apply try_fix_None. unfold split_point. rewrite Em.
        assert (Hnone : nth_error (finditer_hex_tokens (digits ByteView) rest)
                          (last_index ByteView) = None).
        { apply nth_error_None. unfold _BYTE_TOK_RE_finditer in Hfirst.
          simpl. lia. }
        rewrite Hnone. reflexivity. }
      cbn [try_fix] in Enone. rewrite Enone. cbn [bind truthy].
      rewrite E. cbn [bind]. rewrite Er. reflexivity.
  - intros tail' Hno Hw. apply try_fix_swap_tail; assumption.
Qed.

End Reconstruction.

Section ScreenClaims.
Context `{UnicodeDB}.

Lemma Forall2_map_r {A B : Type} (P : A -> B -> Prop) (f : A -> B) (l : list A) :
  Forall (fun a => P a (f a)) l -> Forall2 P l (map f l).
Proof. induction 1; simpl; constructor; assumption. Qed.

Lemma firstn_rebuilt (ly : layout) (core : str) (sp : nat) (run : list Z) :
  split_point ly core = Some sp ->
  firstn sp (rebuilt core sp run) = firstn sp core.
Proof.
  intros Hsp. pose proof (split_point_length ly core sp Hsp) as Hl.
  unfold rebuilt. rewrite firstn_app, Hl, Nat.sub_diag, firstn_all2 by lia.
  simpl. apply app_nil_r.
Qed.

(** What patching does to one tidy line. *)
Lemma patch_line_frame (line : str) :
  tidy_line line = true ->
  exists core nl fixed : str,
    core_nl line = (core, nl) /\ line = core ++ nl /\
    (nl = [] \/ nl = [LF] \/ nl = [CR; LF]) /\
    patch_line line = fixed ++ nl /\ core_nl (fixed ++ nl) = (fixed, nl) /\
    fixed_of core = Ok fixed /\
    (fixed = core \/
     exists (ly : layout) (sp : nat),
       classified_as core = Some ly /\ split_point ly core = Some sp /\
       firstn sp fixed = firstn sp core).
Proof.
  unfold tidy_line. destruct (core_nl line) as [core nl] eqn:Ec. cbn [fst].
  destruct (core_nl_spec _ _ _ Ec) as [Hline Hnl]. intros Htidy.
  pose proof (patch_line_eq _ _ _ Ec) as Hpatch.
  pose proof (fixed_of_total core) as Hfix.
  exists core, nl, (fixed_or_core core).
  split; [reflexivity|]. split; [exact Hline|]. split; [exact Hnl|].
  split; [exact Hpatch|].
  unfold fixed_or_core in *.
  destruct (fixed_of_cases core)
    as [[_ E] | (ly & sp & run & Ecl & Hsp & _ & _ & Hb & E & _)]; rewrite E.
  - split; [rewrite <- Hline; exact Ec|]. split; [reflexivity|]. left. reflexivity.
  - rewrite Ecl in Htidy.
    split; [apply core_nl_app; [apply rebuilt_no_linebreak|]; assumption|].
    split; [reflexivity|]. right. exists ly, sp.
    split; [exact Ecl|]. split; [exact Hsp|].
    apply (firstn_rebuilt ly), Hsp.
Qed.

(** C7, amended. When no line that the Line Classifier rewrites holds a
    line break other than its final line feed (alone or after a carriage
    return), the output splits into as many lines as the input, in the same
    order; every line keeps its terminator (none, a line feed, or a
    carriage return and a line feed); and a line is either left as it is
    or, when a layout classifies it, kept up to its split point. *)
Theorem screen_lines_preserved (s : str) :
  forallb tidy_line (splitlines_keepends s) = true ->
  exists out : str,
    fix_screen_text s = Ok out /\
    length (splitlines_keepends out) = length (splitlines_keepends s) /\
    Forall2
      (fun line line' : str =>
         exists core nl fixed : str,
           core_nl line = (core, nl) /\ line = core ++ nl /\
           (nl = [] \/ nl = [LF] \/ nl = [CR; LF]) /\
           line' = fixed ++ nl /\ core_nl line' = (fixed, nl) /\
           fixed_of core = Ok fixed /\
           (fixed = core \/
            exists (ly : layout) (sp : nat),
              classified_as core = Some ly /\
              split_point ly core = Some sp /\
              firstn sp fixed = firstn sp core))
      (splitlines_keepends s) (splitlines_keepends out).
Proof.
  intros Htidy.
  exists (concat (map patch_line (splitlines_keepends s))).
  split; [apply fix_screen_text_total|].
  rewrite (well_split_resplit _
             (well_split_patch _ (splitlines_well_split s) Htidy)).
  split; [apply length_map|].
  apply Forall2_map_r. rewrite forallb_forall in Htidy.
  apply Forall_forall. intros line Hin.
  destruct (patch_line_frame line (Htidy line Hin))
    as (core & nl & fixed & H1 & H2 & H3 & H4 & H5 & H6 & H7).
  exists core, nl, fixed. rewrite H4. auto 10.
Qed.

Lemma settled_line_tidy (line : str) :
  settled_line line = true -> tidy_line line = true.
Proof.
  unfold settled_line, tidy_line.
  destruct (classified_as (fst (core_nl line))); [|reflexivity].
  intros Hs. apply andb_true_iff in Hs as [Hs _].
  apply andb_true_iff in Hs as [Hs _]. exact Hs.
Qed.

Lemma forallb_impl {A : Type} (f g : A -> bool) (l : list A) :
  (forall a, f a = true -> g a = true) ->
  forallb f l = true -> forallb g l = true.
Proof.
  intros Hfg. rewrite !forallb_forall. intros Hf a Ha. apply Hfg, Hf, Ha.
Qed.

Lemma padding_width_pos (tail : str) : (1 <= padding_width tail)%nat.
Proof. unfold padding_width. destruct (leading_spaces tail); lia. Qed.

(** A rebuilt line whose Byte Run does not start with a space is rebuilt
    into itself. *)
Lemma try_fix_rebuilt (ly : layout) (core : str) (sp : nat) (run : list Z) :
  split_point ly core = Some sp ->
  byte_run ly core = Some run ->
  Forall is_byte run ->
  no_linebreak core = true ->
  match run with b :: _ => negb (b =? 0x20) | [] => true end = true ->
  try_fix ly (rebuilt core sp run) = Ok (Some (rebuilt core sp run)).
Proof.
  intros Hsp Hrun Hb Hc Hfirst. unfold rebuilt.
  set (pad := padding_width (skipn sp core)).
  set (chars := map render_char run).
  assert (Hpad : (1 <= pad)%nat) by apply padding_width_pos.
  assert (Hlead : leading_spaces chars = 0%nat).
  { unfold chars. destruct run as [|b run]; [reflexivity|]. simpl.
    destruct (Z.eqb_spec (render_char b) SP) as [E|]; [|reflexivity].
    apply render_char_space in E; [|inversion Hb; assumption].
    subst b. discriminate. }
  assert (Hw : padding_width (repeat SP pad ++ chars) = pad).
  { unfold padding_width. rewrite leading_spaces_repeat, Hlead.
    destruct pad; [lia | rewrite Nat.add_0_r; reflexivity]. }
  rewrite (try_fix_swap_tail ly core (repeat SP pad ++ chars) sp run Hsp Hrun).
  - rewrite Hw. reflexivity.
  - apply no_linebreak_no_LF. rewrite no_linebreak_app, spaces_no_linebreak.
    apply rendered_no_linebreak, Hb.
  - destruct pad; [lia | reflexivity].
Qed.

Lemma fixed_of_settled (line : str) :
  settled_line line = true ->
  fixed_of (fixed_or_core (fst (core_nl line)))
  = Ok (fixed_or_core (fst (core_nl line))).
Proof.
  unfold settled_line. set (core := fst (core_nl line)). intros Hs.
  unfold fixed_or_core.
  destruct (fixed_of_cases core)
    as [[_ E] | (ly & sp & run & Ecl & Hsp & Hrun & Hl & Hb & E & _)];
    rewrite E; [exact E|].
  rewrite Ecl, Hrun in Hs.
  apply andb_true_iff in Hs as [Hs Hword].
  apply andb_true_iff in Hs as [Hc Hfirst].
  assert (Hfirst' : match run with b :: _ => negb (b =? 0x20) | [] => true end
                    = true) by (destruct run; [reflexivity | exact Hfirst]).
  pose proof (try_fix_rebuilt ly core sp run Hsp Hrun Hb Hc Hfirst') as Hre.
  unfold fixed_or_core in Hword. rewrite E in Hword.
  destruct (rebuilt_cons core sp run Hl) as (c & r & Er).
  unfold fixed_of. destruct ly; cbn [try_fix] in Hre.
  - rewrite Hre. cbn [bind]. rewrite Er. reflexivity.
  - destruct (try_fix_byte_view_line (rebuilt core sp run)) as [[o|]|e];
      try discriminate.
    cbn [bind truthy]. rewrite Hre. cbn [bind]. rewrite Er. reflexivity.
Qed.

Lemma patch_line_settled (line : str) :
  settled_line line = true -> patch_line (patch_line line) = patch_line line.
Proof.
  intros Hs. pose proof (fixed_of_settled line Hs) as Hfix.
  destruct (patch_line_frame line (settled_line_tidy line Hs))
    as (core & nl & fixed & Ec & _ & _ & Hp & Ec' & Hf & _).
  rewrite Ec in Hfix. cbn [fst] in Hfix.
  assert (Efixed : fixed_or_core core = fixed).
  { unfold fixed_or_core. rewrite Hf. reflexivity. }
  rewrite Efixed in Hfix.
  rewrite Hp, (patch_line_eq _ _ _ Ec'). unfold fixed_or_core. rewrite Hfix.
  reflexivity.
Qed.

(** X14. Patching a screen twice is the same as patching it once when
    every line that the Line Classifier rewrites holds no line break but
    its final line feed (alone or after a carriage return), has a Byte Run
    that does not start with 0x20 and, if it is classified by the word
    view, is still rejected by the byte view once rewritten. *)
Theorem fix_screen_text_twice (s : str) :
  forallb settled_line (splitlines_keepends s) = true ->
  exists out : str,
    fix_screen_text s = Ok out /\ fix_screen_text out = Ok out.
Proof.
  intros Hs.
  pose proof (forallb_impl _ _ _ settled_line_tidy Hs) as Htidy.
  exists (concat (map patch_line (splitlines_keepends s))).
  split; [apply fix_screen_text_total|].
  rewrite fix_screen_text_total.
  rewrite (well_split_resplit _
             (well_split_patch _ (splitlines_well_split s) Htidy)).
  rewrite map_map.
  assert (E : map (fun line => patch_line (patch_line line))
                  (splitlines_keepends s)
              = map patch_line (splitlines_keepends s)).
  { apply map_ext_in. intros line Hin. apply patch_line_settled.
    rewrite forallb_forall in Hs. apply Hs, Hin. }
  rewrite E. reflexivity.
Qed.

End ScreenClaims.

(** * Further properties of the fixers *)

Section Further.
Context `{UnicodeDB}.

(** X1. Neither detector raises: on any line it returns [None] or a
    rebuilt line. *)
Theorem try_fix_never_raises (ly : layout) (line : str) :
  try_fix ly line = Ok None \/
  exists out : str, try_fix ly line = Ok (Some out).
Proof.
  destruct (try_fix_cases ly line) as [[_ E] | (sp & run & _ & _ & _ & _ & E)].
  - left. exact E.
  - right. eexists. exact E.
Qed.

(** X2. The byte view comes first: a line it classifies is rebuilt its
    way, whatever the word view would make of it. *)
Theorem byte_view_first (core out : str) :
  try_fix_byte_view_line core = Ok (Some out) -> fixed_of core = Ok out.
Proof.
  intros E.
  destruct (try_fix_Some ByteView core out E) as (sp & run & _ & _ & Hl & _ & ->).
  fold (rebuilt core sp run) in *.
  unfold fixed_of. rewrite E. cbn [bind].
  destruct (rebuilt_cons core sp run Hl) as (c & r & ->). reflexivity.
Qed.

(** X3. The Screen Patcher never raises: its output is the concatenation,
    in order, of what the Line Classifier makes of the core of each line of
    [splitlines], each followed by the terminator set aside (nothing, a
    line feed, or a carriage return and a line feed). *)
Theorem fix_screen_text_never_raises (s : str) :
  exists out : str,
    fix_screen_text s = Ok out /\
    out = concat (map patch_line (splitlines_keepends s)) /\
    concat (splitlines_keepends s) = s /\
    Forall
      (fun line : str =>
         exists core nl fixed : str,
           core_nl line = (core, nl) /\ line = core ++ nl /\
           (nl = [] \/ nl = [LF] \/ nl = [CR; LF]) /\
           fixed_of core = Ok fixed /\
           fix_one_line line = Ok (fixed ++ nl) /\
           patch_line line = fixed ++ nl)
      (splitlines_keepends s).
Proof.
  exists (concat (map patch_line (splitlines_keepends s))).
  split; [apply fix_screen_text_total|]. split; [reflexivity|].
  split; [apply splitlines_concat|].
  apply Forall_forall. intros line _.
  destruct (core_nl line) as [core nl] eqn:Ec.
  destruct (core_nl_spec _ _ _ Ec) as [Hline Hnl].
  exists core, nl, (fixed_or_core core).
  split; [reflexivity|]. split; [exact Hline|]. split; [exact Hnl|].
  split; [apply fixed_of_total|].
  rewrite fix_one_line_total, (patch_line_eq _ _ _ Ec). split; reflexivity.
Qed.

End Further.

(** * The decoder, further *)

Lemma cp866_byte_of_char (b : byte) : cp866_byte_of (cp866_char b) = Some b.
Proof. destruct b; vm_compute; reflexivity. Qed.

Lemma cp866_char_inj (a b : byte) : cp866_char a = cp866_char b -> a = b.
Proof.
  intros E. apply (f_equal cp866_byte_of) in E.
  rewrite !cp866_byte_of_char in E. injection E as ->. reflexivity.
Qed.

(** X4. Decoding is compositional: a buffer cut anywhere decodes to the
    concatenation of what its two parts decode to, so a screen read in
    several chunks can be decoded chunk by chunk. *)
Theorem cp866_to_utf8_app (a b : bytes) :
  cp866_to_utf8 (a ++ b)
  = (x <- cp866_to_utf8 a ;; y <- cp866_to_utf8 b ;; Ok (x ++ y)).
Proof.
  rewrite !cp866_to_utf8_chars. cbn [bind]. rewrite map_app. reflexivity.
Qed.

(** X5. Decoding loses nothing: two byte sequences that decode to the same
    text are the same sequence. *)
Theorem cp866_to_utf8_injective (a b : bytes) :
  cp866_to_utf8 a = cp866_to_utf8 b -> a = b.
Proof.
  rewrite !cp866_to_utf8_chars. intros E. injection E as E.
  revert b E. induction a as [|x a IH]; intros [|y b] E; try discriminate.
  - reflexivity.
  - simpl in E. injection E as E1 E2.
    apply cp866_char_inj in E1. subst y. f_equal. apply IH, E2.
Qed.

(** X6. ASCII passes through: a buffer of bytes below 0x80 decodes to the
    characters of the same code points. *)
Theorem cp866_to_utf8_ascii (data : bytes) :
  forallb (fun b => int_of_byte b <? 0x80) data = true ->
  cp866_to_utf8 data = Ok (map int_of_byte data).
Proof.
  intros Hd. rewrite cp866_to_utf8_chars. f_equal.
  apply map_ext_in. intros b Hb. rewrite forallb_forall in Hd.
  specialize (Hd b Hb). revert Hd. clear.
  destruct b; vm_compute; intros E; try reflexivity; discriminate.
Qed.

(** * The renderer, further *)

(** X7. [render_byte_cp866] raises a [ValueError] on an integer above 255
    and on no other; what it returns otherwise is always one character, and
    never a control character or a line break, so that a rendered tail is
    sixteen columns wide whatever the bytes. *)
Theorem render_byte_cp866_printable (b : Z) :
  (255 < b /\ render_byte_cp866 b = Raise ValueError) \/
  (b <= 255 /\
   exists c : Z, render_byte_cp866 b = Ok [c] /\ printable c).
Proof.
  destruct (Z.ltb_spec 255 b) as [Hhi|Hle].
  - left. split; [exact Hhi|]. unfold render_byte_cp866, bytes_of_ints.
    destruct (Z.ltb_spec b 0x20); [lia|].
    destruct (Z.eqb_spec b 0x7F); [lia|]. simpl.
    unfold byte_of_int. destruct (Z.ltb_spec b 0); [lia|].
    destruct (Z.ltb_spec 255 b); [|lia]. reflexivity.
  - right. split; [exact Hle|].
    destruct (Z.ltb_spec b 0) as [Hneg|Hpos].
    + exists 46. unfold render_byte_cp866.
      destruct (Z.ltb_spec b 0x20); [|lia]. simpl.
      split; [reflexivity|]. unfold printable. repeat split; try lia.
    + exists (render_char b).
      split; [apply render_byte_cp866_char; lia|].
      assert (Hb : 0 <= b <= 255) by lia.
      assert (Ht : ((0x20 <=? render_char b)
                    && negb (render_char b =? 0x7F)
                    && negb (is_linebreak (render_char b))) = true).
      { clear Hle Hpos. revert b Hb. apply byte_table. vm_compute. reflexivity. }
      apply andb_true_iff in Ht as [Ht H3].
      apply andb_true_iff in Ht as [H1 H2].
      apply Z.leb_le in H1. apply negb_true_iff in H2, H3.
      apply Z.eqb_neq in H2. repeat split; assumption.
Qed.

(** * The Screen Patcher, further *)

Section ScreenFurther.
Context `{UnicodeDB}.

Lemma count_LF_app (a b : str) :
  count_LF (a ++ b) = (count_LF a + count_LF b)%nat.
Proof. apply count_occ_app. Qed.

Lemma no_LF_count (s : str) : no_LF s = true -> count_LF s = 0%nat.
Proof.
  unfold no_LF, count_LF. induction s as [|c s IH]; simpl; [reflexivity|].
  intros Hs. apply andb_true_iff in Hs as [Hc Hs].
  apply negb_true_iff, Z.eqb_neq in Hc.
  destruct (Z.eq_dec c LF); [contradiction | apply IH, Hs].
Qed.

(** The Line Classifier brings no line feed into a core that has none. *)
Lemma fixed_or_core_no_LF (core : str) :
  no_LF core = true -> no_LF (fixed_or_core core) = true.
Proof.
  intros Hc. unfold fixed_or_core.
  destruct (fixed_of_cases core)
    as [[_ E] | (ly & sp & run & _ & _ & _ & _ & Hb & E & _)]; rewrite E;
    [exact Hc|].
  unfold rebuilt. rewrite !no_LF_app, no_LF_firstn by exact Hc.
  rewrite !no_linebreak_no_LF;
    [reflexivity | apply rendered_no_linebreak, Hb | apply spaces_no_linebreak].
Qed.

Lemma patch_line_count_LF (ps : list str) :
  well_split ps ->
  Forall (fun p => count_LF (patch_line p) = count_LF p) ps.
Proof.
  induction 1 as [|content Hne Hc|content term ps Hc Ht Hps IH].
  - constructor.
  - constructor; [|constructor].
    destruct (patch_line_tidy content [] Hc ltac:(auto))
      as (fixed & E & _ & Hf & _).
    rewrite !app_nil_r in E. rewrite E.
    rewrite (no_LF_count fixed), (no_LF_count content)
      by (apply no_linebreak_no_LF; assumption).
    reflexivity.
  - constructor; [|exact IH].
    assert (Hkeep : forall nl, nl = [LF] \/ nl = [CR; LF] ->
              count_LF (patch_line (content ++ nl)) = count_LF (content ++ nl)).
    { intros nl Hnl.
      destruct (patch_line_tidy content nl Hc ltac:(tauto))
        as (fixed & E & _ & Hf & _).
      rewrite E, !count_LF_app.
      rewrite (no_LF_count fixed), (no_LF_count content)
        by (apply no_linebreak_no_LF; assumption).
      reflexivity. }
    destruct Ht as [-> | (c & -> & Hlb & _)]; [apply Hkeep; auto|].
    destruct (Z.eq_dec c LF) as [->|Hne]; [apply Hkeep; auto|].
    rewrite (patch_line_eq _ _ _ (core_nl_other content c Hne)), app_nil_r.
    assert (Hno : no_LF (content ++ [c]) = true).
    { rewrite no_LF_app, (no_linebreak_no_LF _ Hc). simpl.
      destruct (Z.eqb_spec c LF); [contradiction | reflexivity]. }
    rewrite (no_LF_count (content ++ [c]) Hno).
    apply no_LF_count, fixed_or_core_no_LF, Hno.
Qed.

Lemma count_LF_concat_map (f : str -> str) (ps : list str) :
  Forall (fun p => count_LF (f p) = count_LF p) ps ->
  count_LF (concat (map f ps)) = count_LF (concat ps).
Proof.
  induction 1 as [|p ps Hp _ IH]; [reflexivity|].
  cbn [map concat]. rewrite !count_LF_app, Hp, IH. reflexivity.
Qed.

(** X8. The Screen Patcher neither adds nor removes a line feed: its
    output holds as many as its input, whatever the lines are. *)
Theorem fix_screen_text_keeps_line_feeds (s : str) :
  exists out : str,
    fix_screen_text s = Ok out /\ count_LF out = count_LF s.
Proof.
  exists (concat (map patch_line (splitlines_keepends s))).
  split; [apply fix_screen_text_total|].
  rewrite <- (splitlines_concat s) at 2.
  apply count_LF_concat_map, patch_line_count_LF, splitlines_well_split.
Qed.

Lemma is_addr_core (core nl : str) :
  is_addr (firstn 9 (core ++ nl)) = false -> is_addr (firstn 9 core) = false.
Proof.
  intros Hl. destruct (is_addr (firstn 9 core)) eqn:Ha; [|reflexivity].
  pose proof (is_addr_length _ Ha) as Hlen. rewrite length_firstn in Hlen.
  rewrite firstn_app in Hl. replace (9 - length core)%nat with 0%nat in Hl by lia.
  change (firstn 0 nl) with (@nil Z) in Hl. rewrite app_nil_r in Hl.
  congruence.
Qed.

Lemma fixed_of_no_addr (core : str) :
  is_addr (firstn 9 core) = false -> fixed_of core = Ok core.
Proof.
  intros Ha.
  destruct (fixed_of_cases core)
    as [[_ E] | (ly & sp & run & _ & Hsp & _)]; [exact E|].
  unfold split_point, _ADDR_RE_match, match_addr_rest in Hsp.
  rewrite Ha in Hsp. discriminate.
Qed.

Lemma patch_line_no_addr (line : str) :
  is_addr (firstn 9 line) = false -> patch_line line = line.
Proof.
  intros Ha. destruct (core_nl line) as [core nl] eqn:Ec.
  destruct (core_nl_spec _ _ _ Ec) as [Hline _].
  rewrite (patch_line_eq _ _ _ Ec). unfold fixed_or_core.
  rewrite Hline in Ha. rewrite (fixed_of_no_addr core (is_addr_core _ _ Ha)).
  symmetry. exact Hline.
Qed.

(** X9. A screen none of whose lines starts with an address field comes
    out of the Screen Patcher exactly as it went in. *)
Theorem fix_screen_text_no_dump_line (s : str) :
  forallb (fun line => negb (is_addr (firstn 9 line)))
          (splitlines_keepends s) = true ->
  fix_screen_text s = Ok s.
Proof.
  intros Hs. rewrite fix_screen_text_total.
  assert (E : map patch_line (splitlines_keepends s) = splitlines_keepends s).
  { rewrite <- (map_id (splitlines_keepends s)) at 2.
    apply map_ext_in. intros line Hin. apply patch_line_no_addr.
    rewrite forallb_forall in Hs. apply negb_true_iff, Hs, Hin. }
  rewrite E, splitlines_concat. reflexivity.
Qed.

End ScreenFurther.

(** * The two views of the same memory *)

Lemma int_hex_from_shift (s : str) : forall acc : Z,
  int_hex_from acc s
  = (v <- int_hex_from 0 s ;; Ok (acc * 16 ^ Z.of_nat (length s) + v)).
Proof.
  induction s as [|c t IH]; intros acc.
  - simpl. f_equal. lia.
  - cbn [int_hex_from]. destruct (hex_value c) as [d|e]; [|reflexivity].
    cbn [bind]. rewrite (IH (16 * acc + d)), (IH (16 * 0 + d)).
    destruct (int_hex_from 0 t) as [v|e]; [|reflexivity].
    cbn [bind]. f_equal.
    replace (Z.of_nat (length (c :: t))) with (Z.succ (Z.of_nat (length t)))
      by (simpl length; lia).
    rewrite Z.pow_succ_r by lia. ring.
Qed.

Lemma int_hex_from_app (a b : str) (acc : Z) :
  int_hex_from acc (a ++ b) = (v <- int_hex_from acc a ;; int_hex_from v b).
Proof.
  revert acc. induction a as [|c a IH]; intros acc; [reflexivity|].
  cbn [app int_hex_from]. destruct (hex_value c); [|reflexivity].
  cbn [bind]. apply IH.
Qed.

(** The value of a word token is 256 times that of its high byte plus that
    of its low byte. *)
Lemma int_hex_word (hi lo : str) (vhi vlo : Z) :
  length lo = 2%nat -> hi <> [] ->
  int_hex hi = Ok vhi -> int_hex lo = Ok vlo ->
  int_hex (hi ++ lo) = Ok (256 * vhi + vlo).
Proof.
  intros Hlo Hhi Ehi Elo. unfold int_hex in *.
  destruct hi as [|h hi]; [contradiction|]. destruct lo as [|l lo]; [discriminate|].
  change ((h :: hi) ++ l :: lo) with (h :: (hi ++ l :: lo)).
  change (h :: (hi ++ l :: lo)) with ((h :: hi) ++ (l :: lo)).
  rewrite int_hex_from_app, Ehi. cbn [bind].
  rewrite int_hex_from_shift, Elo. cbn [bind]. rewrite Hlo.
  cbn [app]. f_equal. change (16 ^ Z.of_nat 2) with 256. ring.
Qed.

Lemma word_view_pairs (bs : list match_obj) : forall (n : nat) (ws : list match_obj),
  length bs = (2 * n)%nat ->
  Forall (token_ok 2) bs ->
  map m_group1 ws = words_of (map m_group1 bs) ->
  exists vs wv,
    mapM (fun tok => int_hex (m_group1 tok)) bs = Ok vs /\
    mapM (fun tok => int_hex (m_group1 tok)) ws = Ok wv /\
    length ws = n /\
    flat_map (fun w => [Z.land w 0xFF; Z.land (Z.shiftr w 8) 0xFF]) wv = vs.
Proof.
  intros n. revert bs. induction n as [|n IH]; intros bs ws Hlen Hok Hws.
  - destruct bs; [|discriminate]. destruct ws; [|discriminate].
    exists [], []. repeat split.
  - destruct bs as [|lo [|hi bs]]; try (simpl in Hlen; lia).
    destruct ws as [|w ws]; [discriminate|].
    cbn [map words_of] in Hws. injection Hws as Hw Hws.
    inversion Hok as [|? ? [Hllo Hhlo] Hok']; subst.
    inversion Hok' as [|? ? [Hlhi Hhhi] Hok'']; subst.
    destruct (IH bs ws ltac:(simpl in Hlen; lia) Hok'' Hws)
      as (vs & wv & Evs & Ewv & Hn & Hflat).
    destruct (int_hex_ok _ 2 ltac:(lia) Hllo Hhlo) as (vlo & Elo & Hvlo).
    destruct (int_hex_ok _ 2 ltac:(lia) Hlhi Hhhi) as (vhi & Ehi & Hvhi).
    change (16 ^ Z.of_nat 2) with 256 in Hvlo, Hvhi.
    assert (Hne : m_group1 hi <> []).
    { intros E. rewrite E in Hlhi. discriminate. }
    pose proof (int_hex_word _ _ _ _ Hllo Hne Ehi Elo) as Ew.
    rewrite <- Hw in Ew.
    exists (vlo :: vhi :: vs), ((256 * vhi + vlo) :: wv).
    cbn [mapM]. rewrite Elo, Ehi, Evs, Ew, Ewv. cbn [bind].
    split; [reflexivity|]. split; [reflexivity|].
    split; [simpl; congruence|].
    cbn [flat_map app]. rewrite Hflat.
    destruct (word_bytes_range (256 * vhi + vlo) ltac:(lia)) as (E1 & E2 & _).
    rewrite E1, E2 by lia. f_equal; [|f_equal].
    + rewrite Z.add_comm, Z.mul_comm, Z.mod_add by lia. apply Z.mod_small. lia.
    + rewrite Z.add_comm, Z.mul_comm, Z.div_add by lia.
      rewrite Z.div_small by lia. reflexivity.
Qed.

(** X10. The two views agree: if the word tokens show the same memory as
    sixteen byte tokens (each word written with its high byte first), the
    word view reconstructs the very Byte Run the byte view does. *)
Theorem word_view_matches_byte_view (bs ws : list match_obj) :
  Forall (token_ok 2) bs ->
  length bs = 16%nat ->
  map m_group1 ws = words_of (map m_group1 bs) ->
  word_view_bytes16 ws = byte_view_bytes16 bs.
Proof.
  intros Hok Hlen Hws.
  destruct (word_view_pairs bs 8 ws Hlen Hok Hws)
    as (vs & wv & Evs & Ewv & Hn & Hflat).
  unfold word_view_bytes16, byte_view_bytes16.
  rewrite (firstn_all2 (n := 16) bs), (firstn_all2 (n := 8) ws) by lia.
  rewrite Evs, Ewv. cbn [bind]. rewrite Hflat. reflexivity.
Qed.

(** * Patching line by line *)

Lemma splitlines_nonempty (s : str) : s <> [] -> splitlines_keepends s <> [].
Proof.
  intros Hs E. pose proof (splitlines_concat s) as Hc. rewrite E in Hc.
  simpl in Hc. congruence.
Qed.

(** A line feed closes a line: what comes after it is split on its own. *)
Lemma splitlines_after_LF_bounded (n : nat) : forall s1 s2 : str,
  (length s1 <= n)%nat ->
  splitlines_keepends (s1 ++ LF :: s2)
  = splitlines_keepends (s1 ++ [LF]) ++ splitlines_keepends s2.
Proof.
  induction n as [|n IH]; intros s1 s2 Hn.
  - destruct s1; [reflexivity | simpl in Hn; lia].
  - destruct s1 as [|c t]; [reflexivity|]. simpl in Hn.
    change ((c :: t) ++ LF :: s2) with (c :: (t ++ LF :: s2)).
    change ((c :: t) ++ [LF]) with (c :: (t ++ [LF])).
    cbn [splitlines_keepends].
    pose proof (IH t s2 ltac:(lia)) as IHt.
    destruct (is_linebreak c).
    + destruct (c =? CR).
      * destruct t as [|c' t'].
        -- reflexivity.
        -- cbn [app] in *. destruct (c' =? LF).
           ++ simpl in Hn. rewrite (IH t' s2) by lia. reflexivity.
           ++ rewrite IHt. reflexivity.
      * rewrite IHt. reflexivity.
    + rewrite IHt.
      destruct (splitlines_keepends (t ++ [LF])) as [|l ls] eqn:E.
      * exfalso. apply (splitlines_nonempty (t ++ [LF])); [|exact E].
        destruct t; discriminate.
      * reflexivity.
Qed.

Lemma splitlines_after_LF (s1 s2 : str) :
  splitlines_keepends (s1 ++ LF :: s2)
  = splitlines_keepends (s1 ++ [LF]) ++ splitlines_keepends s2.
Proof. apply (splitlines_after_LF_bounded (length s1)), le_n. Qed.

Section LineLocal.
Context `{UnicodeDB}.

(** X13. Patching is local to the lines: a screen cut after any line feed
    is patched as the concatenation of its two parts patched apart. *)
Theorem fix_screen_text_after_LF (s1 s2 : str) :
  fix_screen_text (s1 ++ LF :: s2)
  = (x <- fix_screen_text (s1 ++ [LF]) ;;
     y <- fix_screen_text s2 ;;
     Ok (x ++ y)).
Proof.
  rewrite !fix_screen_text_total. cbn [bind].
  rewrite splitlines_after_LF, map_app, concat_app. reflexivity.
Qed.

End LineLocal.

(** * The main loop *)

Section MainProofs.
Context `{UnicodeDB}.

(** Decoding and patching a chunk cannot fail. *)
Lemma frame_of_total (data : bytes) :
  frame_of data = Ok (frame_text data) /\ is_frame data (frame_text data).
Proof.
  unfold frame_text, frame_of, is_frame.
  rewrite cp866_to_utf8_chars. cbn [bind].
  rewrite fix_screen_text_total. cbn [bind]. split; [reflexivity|].
  exists (map cp866_char data). eexists.
  split; [reflexivity|].
  split; [apply fix_screen_text_total | reflexivity].
Qed.

Lemma frames_of_are_frames (fifo : Z) (cycles : list cycle) :
  Forall2 is_frame (chunks_read fifo cycles) (frames_of fifo cycles).
Proof.
  unfold frames_of.
  induction (chunks_read fifo cycles) as [|data l IH]; simpl; constructor;
    [apply frame_of_total | exact IH].
Qed.

(** The quiet turns a script starts with are run through, one frame
    printed for each chunk read. *)
Lemma main_loop_calm (fifo : Z) (calm rest : list cycle) (reset : printing) :
  forall out : list str,
    forallb (quiet fifo) calm = true ->
    main_loop fifo (calm ++ rest) reset out
    = main_loop fifo rest reset (out ++ frames_of fifo calm).
Proof.
  unfold frames_of.
  induction calm as [|c calm IH]; intros out Hq.
  - simpl. rewrite app_nil_r. reflexivity.
  - cbn [forallb] in Hq. apply andb_true_iff in Hq as [Hc Hq].
    unfold quiet, turn_of in Hc. cbn [app main_loop chunks_read].
    destruct (polled c) as [events| |]; try discriminate.
    destruct (pollin_on fifo events).
    + destruct (chunk c) as [data| |]; try discriminate.
      destruct (frame_of_total data) as [E _]. rewrite E.
      destruct (shown c); try discriminate.
      rewrite (IH _ Hq). cbn [map]. rewrite <- app_assoc. reflexivity.
    + destruct (chunk c); apply IH, Hq.
Qed.

(** A script is quiet throughout or has a first turn that is not. *)
Lemma first_disturbed (fifo : Z) (cycles : list cycle) :
  forallb (quiet fifo) cycles = true \/
  exists (calm : list cycle) (c : cycle) (rest : list cycle),
    cycles = calm ++ c :: rest /\
    forallb (quiet fifo) calm = true /\ quiet fifo c = false.
Proof.
  induction cycles as [|c cycles IH]; [left; reflexivity|].
  destruct (quiet fifo c) eqn:Ec.
  - destruct IH as [IH | (calm & c' & rest & -> & Hq & Hc)].
    + left. simpl. rewrite Ec. exact IH.
    + right. exists (c :: calm), c', rest. simpl. rewrite Ec. auto.
  - right. exists [], c, cycles. auto.
Qed.

(** The turn that is not quiet ends the loop. *)
Lemma main_loop_disturbed (fifo : Z) (c : cycle) (rest : list cycle)
    (reset : printing) (out : list str) :
  main_loop fifo (c :: rest) reset out
  = match turn_of fifo c with
    | Turn_calm => main_loop fifo (c :: rest) reset out
    | Turn_interrupted => interrupted out reset
    | Turn_failed => {| written := out; ended := Uncaught_OSError |}
    | Turn_raised e => {| written := out; ended := Uncaught e |}
    end.
Proof.
  unfold turn_of. cbn [main_loop].
  destruct (polled c) as [events| |]; try reflexivity.
  destruct (pollin_on fifo events); [|reflexivity].
  destruct (chunk c) as [data| |]; try reflexivity.
  destruct (frame_of_total data) as [E _]. rewrite E.
  destruct (shown c); reflexivity.
Qed.

(** X11. What [main] prints and how it ends, whatever the system does.
    Without a pipe named by [MDA_PIPE] (unset or empty) it prints the
    message and returns 1, unless that [print] fails.  With one, a failure
    or an interrupt of [os.open] leaves [main] at once.  Else the loop
    prints one frame for each chunk read as long as the turns are quiet,
    and only the first turn that is not quiet ends it: on an interrupt the
    reset sequence is printed and [main] returns 0, unless that [print]
    fails; an [OSError], and any other exception that the [print] of a
    frame raises (a [UnicodeEncodeError], say), leave [main] as they are.
    Nothing else ends it: every frame is the cursor-home sequence followed
    by the chunk decoded and patched, which never raise. *)
Theorem main_endings (mda_pipe : option str) (told : printing)
    (opened : sys Z) (cycles : list cycle) (reset : printing) :
  (((mda_pipe = None \/ mda_pipe = Some []) /\
    ((told = Printed /\
      main mda_pipe told opened cycles reset
      = {| written := [no_pipe_message ++ [LF]]; ended := Exit 1 |}) \/
     (exists e : ending,
        raised_by told = Some e /\
        main mda_pipe told opened cycles reset
        = {| written := []; ended := e |}))) \/
   (exists pipe : str,
      mda_pipe = Some pipe /\ pipe <> [] /\
      ((opened = Interrupt /\
        main mda_pipe told opened cycles reset
        = {| written := []; ended := Uncaught_KeyboardInterrupt |}) \/
       (opened = Fails /\
        main mda_pipe told opened cycles reset
        = {| written := []; ended := Uncaught_OSError |}) \/
       (exists fifo : Z,
          opened = Returns fifo /\
          ((forallb (quiet fifo) cycles = true /\
            main mda_pipe told opened cycles reset
            = {| written := frames_of fifo cycles; ended := Polling |}) \/
           (exists (calm : list cycle) (c : cycle) (rest : list cycle),
              cycles = calm ++ c :: rest /\
              forallb (quiet fifo) calm = true /\
              ((turn_of fifo c = Turn_interrupted /\
                ((reset = Printed /\
                  main mda_pipe told opened cycles reset
                  = {| written := frames_of fifo calm
                                  ++ [ANSI_ATTR_RESET ++ [LF]];
                       ended := Exit 0 |}) \/
                 (exists e : ending,
                    raised_by reset = Some e /\
                    main mda_pipe told opened cycles reset
                    = {| written := frames_of fifo calm; ended := e |}))) \/
               (turn_of fifo c = Turn_failed /\
                main mda_pipe told opened cycles reset
                = {| written := frames_of fifo calm;
                     ended := Uncaught_OSError |}) \/
               (exists e : exn,
                  turn_of fifo c = Turn_raised e /\
                  main mda_pipe told opened cycles reset
                  = {| written := frames_of fifo calm;
                       ended := Uncaught e |})))))))) /\
  forall (fifo : Z) (l : list cycle),
    Forall2 (fun data text =>
               exists screen patched : str,
                 cp866_to_utf8 data = Ok screen /\
                 fix_screen_text screen = Ok patched /\
                 text = ANSI_CURSOR_HOME ++ patched)
            (chunks_read fifo l) (frames_of fifo l).
Proof.
  split; [|intros fifo l; apply frames_of_are_frames].
  assert (Hprint : forall (out : list str) (text : str) (p : printing)
                          (after : ending),
    (p = Printed /\
     print_or_raise out text p after
     = {| written := out ++ [text]; ended := after |}) \/
    (exists e : ending,
       raised_by p = Some e /\
       print_or_raise out text p after = {| written := out; ended := e |})).
  { intros out text p after. destruct p; simpl; eauto. }
  unfold main. destruct mda_pipe as [[|ch pipe]|].
  - left. split; [auto|]. apply (Hprint []).
  - right. exists (ch :: pipe). split; [reflexivity|].
    split; [discriminate|].
    destruct opened as [fifo| |]; [|auto|auto].
    right. right. exists fifo. split; [reflexivity|].
    destruct (first_disturbed fifo cycles)
      as [Hq | (calm & c & rest & -> & Hq & Hc)].
    + left. split; [exact Hq|].
      rewrite <- (app_nil_r cycles) at 1.
      rewrite (main_loop_calm fifo cycles [] reset [] Hq). reflexivity.
    + right. exists calm, c, rest. split; [reflexivity|].
      split; [exact Hq|].
      rewrite (main_loop_calm fifo calm (c :: rest) reset [] Hq).
      cbn [app]. rewrite main_loop_disturbed.
      unfold quiet in Hc.
      destruct (turn_of fifo c) as [| | |e]; [discriminate| | |].
      * left. split; [reflexivity|]. apply Hprint.
      * right. left. auto.
      * right. right. exists e. auto.
  - left. split; [auto|]. apply (Hprint []).
Qed.

(** X12. With a pipe named and opened, and as long as no turn of the loop
    is disturbed by an interrupt, by an [OSError] or by a [print] that
    fails, the loop prints one frame for every turn where [poll] reports
    exactly [POLLIN] on the pipe, in order, and nothing for any other turn
    (a timeout, another descriptor, or [POLLIN] together with [POLLHUP]);
    it never stops by itself.  Each frame is the cursor-home sequence
    followed by the chunk decoded and patched. *)
Theorem main_prints_each_chunk (pipe : str) (told : printing) (fifo : Z)
    (cycles : list cycle) (reset : printing) :
  pipe <> [] ->
  forallb (quiet fifo) cycles = true ->
  main (Some pipe) told (Returns fifo) cycles reset
  = {| written := map frame_text (chunks_read fifo cycles);
       ended := Polling |} /\
  Forall2 (fun data text =>
             exists screen patched : str,
               cp866_to_utf8 data = Ok screen /\
               fix_screen_text screen = Ok patched /\
               text = ANSI_CURSOR_HOME ++ patched)
          (chunks_read fifo cycles)
          (written (main (Some pipe) told (Returns fifo) cycles reset)).
Proof.
  intros Hp Hq. destruct pipe as [|c pipe]; [contradiction|].
  cbn [main]. rewrite <- (app_nil_r cycles) at 1 4.
  rewrite (main_loop_calm fifo cycles [] reset [] Hq).
  cbn [main_loop app written]. split; [reflexivity|].
  apply frames_of_are_frames.
Qed.

End MainProofs.

(** * Sample lines and screens *)

(** The byte-view sample: 8A shows as a Cyrillic letter, the rest as
    periods. *)
Example byte_view_sample_try_fix :
  @try_fix_byte_view_line cp866_unicode byte_view_sample
  = Ok (Some byte_view_sample_fixed).
Proof. vm_compute. reflexivity. Qed.

Lemma dump_line_reconstruction_witness :
  exists (vals run : list Z) (chars : str),
    vals = [0x8A; 0x10; 0; 0; 0; 0; 0; 0; 0; 0; 0; 0; 0; 0; 0; 0] /\
    run = vals /\
    chars = [0x041A] ++ of_string "..............." /\
    @try_fix_byte_view_line cp866_unicode byte_view_sample
    = Ok (Some (firstn 58 byte_view_sample ++ [SP; SP] ++ chars)) /\
    @fixed_of cp866_unicode byte_view_sample = Ok byte_view_sample_fixed.
Proof.
  destruct (@dump_line_reconstruction cp866_unicode ByteView byte_view_sample
              (of_string "0000:0000")
              (of_string "  8A 10 00 00 00 00 00 00 00 00 00 00 00 00 00 00  ........"))
    as (toks & last & split & vals & run & chars & out
        & Htoks & _ & Hlast & Hsplit & _ & Hvals & Hrun & _ & Hchars & _
        & Hout & Hfix & Hcls & _).
  - vm_compute. reflexivity.
  - vm_compute. lia.
  - subst toks. vm_compute in Hlast. injection Hlast as <-.
    vm_compute in Hsplit. subst split.
    assert (Ev : vals = [0x8A; 0x10; 0; 0; 0; 0; 0; 0; 0; 0; 0; 0; 0; 0; 0; 0]).
    { vm_compute in Hvals.
      repeat match goal with
             | Hf : Forall2 _ (_ :: _) _ |- _ =>
                 inversion Hf; subst; clear Hf
             | Hf : Forall2 _ [] _ |- _ => inversion Hf; subst; clear Hf
             | He : Ok _ = Ok _ |- _ => injection He as <-
             end.
      reflexivity. }
    exists vals, run, chars. subst vals. cbn [run_of_values] in Hrun. subst run.
    vm_compute in Hchars. subst chars.
    split; [reflexivity|]. split; [reflexivity|]. split; [reflexivity|].
    subst out. split.
    + cbn [try_fix] in Hfix. rewrite Hfix. vm_compute. reflexivity.
    + rewrite (Hcls (or_introl eq_refl)). vm_compute. reflexivity.
Defined.

Lemma word_view_little_endian_witness :
  exists (ws run : list Z),
    ws = [0; 0x2020; 0; 0; 0; 0; 0; 0] /\
    run = [0; 0; 0x20; 0x20; 0; 0; 0; 0; 0; 0; 0; 0; 0; 0; 0; 0] /\
    run = flat_map (fun w => [w mod 256; w / 256]) ws /\
    word_view_sample_fixed_line
    = firstn 50 word_view_sample ++ [SP; SP] ++ map render_char run.
Proof.
  destruct (@word_view_little_endian cp866_unicode word_view_sample
              word_view_sample_fixed_line)
    as (addr & rest & ws & run & Em & Ews & _ & _ & Erun & Hrun & _).
  - vm_compute. reflexivity.
  - exists ws, run.
    vm_compute in Em. injection Em as <- <-.
    vm_compute in Ews. injection Ews as <-.
    vm_compute in Erun. injection Erun as <-.
    repeat split.
Defined.

Lemma control_bytes_render_as_period_witness :
  render_byte_cp866 0x10 = Ok (of_string ".") /\
  nth_error byte_view_sample_fixed (length byte_view_sample_fixed - 16 + 1)
  = Some 46.
Proof.
  destruct (@control_bytes_render_as_period cp866_unicode ByteView
              byte_view_sample byte_view_sample_fixed)
    as (run & Hrun & _ & Hall).
  - vm_compute. reflexivity.
  - vm_compute in Hrun. injection Hrun as <-.
    destruct (Hall 1%nat 0x10 eq_refl) as (bt & _ & Hdot & _ & Hout).
    split; [exact Hdot | exact Hout].
Defined.

Lemma unclassified_line_unchanged_witness :
  @try_fix_byte_view_line cp866_unicode short_dump_line = Ok None /\
  @try_fix_word_view_line cp866_unicode short_dump_line = Ok None /\
  @fixed_of cp866_unicode short_dump_line = Ok short_dump_line.
Proof.
  apply (@unclassified_line_unchanged cp866_unicode short_dump_line).
  right. right.
  exists (of_string "0000:0000"), (of_string "  8A 10").
  split; [vm_compute; reflexivity|].
  split; vm_compute; lia.
Defined.

Lemma fix_screen_text_twice_witness :
  exists out : str,
    @fix_screen_text cp866_unicode sample_screen = Ok out /\
    @fix_screen_text cp866_unicode out = Ok out.
Proof.
  apply (@fix_screen_text_twice cp866_unicode sample_screen).
  vm_compute. reflexivity.
Defined.

Lemma screen_lines_preserved_witness :
  exists out : str,
    @fix_screen_text cp866_unicode mixed_screen = Ok out /\
    length (splitlines_keepends out) = 5%nat.
Proof.
  destruct (@screen_lines_preserved cp866_unicode mixed_screen)
    as (out & Hout & Hlen & _).
  - vm_compute. reflexivity.
  - exists out. split; [exact Hout|]. rewrite Hlen. vm_compute. reflexivity.
Defined.

(** C5. The claim fails, by a defect of the code.  [space_first_line] is a
    dump line as the debugger shows it: after the sixteenth token come two
    spaces of padding and the sixteen characters of its bytes, the first
    of them the space that 0x20 is shown as.  The source measures the
    padding by stripping all the spaces the stale tail starts with and
    counting what went, under the comment that the original left padding
    is kept; the space of the first byte is counted with them.  So the
    first pass, which had nothing to correct, already moves the column of
    characters one place to the right, and the second pass moves it once
    more: the screen patched twice is not the screen patched once. *)
Lemma fix_screen_text_not_idempotent :
  @split_point cp866_unicode ByteView space_first_line = Some 58%nat /\
  @byte_run cp866_unicode ByteView space_first_line = Some space_first_run /\
  space_first_line
  = firstn 58 space_first_line ++ repeat SP 2
    ++ map render_char space_first_run /\
  padding_width (skipn 58 space_first_line) = 3%nat /\
  @fix_screen_text cp866_unicode space_first_line = Ok space_first_once /\
  space_first_once
  = firstn 58 space_first_line ++ repeat SP 3
    ++ map render_char space_first_run /\
  @fix_screen_text cp866_unicode space_first_once = Ok space_first_twice /\
  space_first_twice
  = firstn 58 space_first_line ++ repeat SP 4
    ++ map render_char space_first_run /\
  space_first_once <> space_first_line /\
  space_first_once <> space_first_twice.
Proof.
  repeat (split; [vm_compute; reflexivity|]).
  split; intros E; apply (f_equal (@length Z)) in E; vm_compute in E;
    discriminate.
Qed.

(** C7, as stated, fails: a dump line ended by a lone carriage return
    loses it with its stale tail, so that the two lines of the input come
    out as one. *)
Lemma lone_carriage_return_dropped :
  @fix_screen_text cp866_unicode cr_screen = Ok cr_screen_fixed /\
  length (splitlines_keepends cr_screen) = 2%nat /\
  length (splitlines_keepends cr_screen_fixed) = 1%nat.
Proof. vm_compute. repeat split. Qed.

(** Two more ways patching twice differs from patching once: the text
    after a dropped carriage return is taken for a stale tail at the second
    pass, and a word-view line can turn into a byte-view one once its new
    tail holds byte tokens. *)
Example lone_carriage_return_twice :
  @fix_screen_text cp866_unicode cr_screen = Ok cr_screen_fixed /\
  @fix_screen_text cp866_unicode cr_screen_fixed = Ok cr_screen_fixed_twice.
Proof. vm_compute. split; reflexivity. Qed.

Example crowded_word_line_reclassified :
  @classified_as cp866_unicode crowded_word_line = Some WordView /\
  @fix_screen_text cp866_unicode crowded_word_line = Ok crowded_word_line_once /\
  @classified_as cp866_unicode crowded_word_line_once = Some ByteView /\
  @fix_screen_text cp866_unicode crowded_word_line_once
  = Ok crowded_word_line_twice.
Proof. vm_compute. repeat split. Qed.

Lemma byte_view_first_witness :
  @try_fix_word_view_line cp866_unicode two_layout_line
  = Ok (Some (firstn 50 two_layout_line ++ of_string "  "
              ++ [46; 46; 34; 34; 51; 51; 68; 68; 85; 85; 102; 102;
                  119; 119; 0x0418; 0x0418])) /\
  @fixed_of cp866_unicode two_layout_line = Ok two_layout_line_fixed.
Proof.
  split; [vm_compute; reflexivity|].
  apply (@byte_view_first cp866_unicode two_layout_line two_layout_line_fixed).
  vm_compute. reflexivity.
Defined.

Lemma cp866_to_utf8_injective_witness :
  [x8a; x10] = map mk_byte [0x8A; 0x10].
Proof. apply cp866_to_utf8_injective. vm_compute. reflexivity. Defined.

Lemma cp866_to_utf8_ascii_witness :
  cp866_to_utf8 [x6f; x6b] = Ok (of_string "ok").
Proof. apply (cp866_to_utf8_ascii [x6f; x6b]). reflexivity. Defined.

Lemma fix_screen_text_no_dump_line_witness :
  @fix_screen_text cp866_unicode help_screen = Ok help_screen.
Proof.
  apply (@fix_screen_text_no_dump_line cp866_unicode help_screen).
  vm_compute. reflexivity.
Defined.

Lemma word_view_matches_byte_view_witness :
  word_view_bytes16 (@_WORD_TOK_RE_finditer cp866_unicode memory_as_words)
  = byte_view_bytes16 (@_BYTE_TOK_RE_finditer cp866_unicode memory_as_bytes).
Proof.
  apply word_view_matches_byte_view.
  - apply (@tokens_ok cp866_unicode 2 memory_as_bytes). lia.
  - vm_compute. reflexivity.
  - vm_compute. reflexivity.
Defined.

(** The sample script, then an interrupt of the read: one frame, the
    reset sequence, and code 0.  The same with a terminal that cannot
    encode the frame: nothing printed, and the error let out. *)
Example main_interrupted_sample :
  @main cp866_unicode (Some (of_string "/tmp/mda")) Printed (Returns 3)
    interrupted_cycles Printed
  = {| written := [ANSI_CURSOR_HOME ++ of_string "ok";
                   ANSI_ATTR_RESET ++ [LF]];
       ended := Exit 0 |}.
Proof. vm_compute. reflexivity. Qed.

Example main_unencodable_sample :
  @main cp866_unicode (Some (of_string "/tmp/mda")) Printed (Returns 3)
    unencodable_cycles Printed
  = {| written := []; ended := Uncaught UnicodeEncodeError |}.
Proof. vm_compute. reflexivity. Qed.

Lemma main_prints_each_chunk_witness :
  written (@main cp866_unicode (Some (of_string "/tmp/mda")) Printed
             (Returns 3) sample_cycles Printed)
  = [ANSI_CURSOR_HOME ++ of_string "ok"] /\
  ended (@main cp866_unicode (Some (of_string "/tmp/mda")) Printed
           (Returns 3) sample_cycles Printed)
  = Polling.
Proof.
  destruct (@main_prints_each_chunk cp866_unicode (of_string "/tmp/mda")
              Printed 3 sample_cycles Printed) as [E _].
  - discriminate.
  - vm_compute. reflexivity.
  - rewrite E. vm_compute. split; reflexivity.
Defined.
